(** * Image thresholding ([tfjs-core/src/ops/image/threshold.ts])

    A shallow embedding of the [threshold] op and of the Otsu search it
    calls, followed by the properties of the op.  The mock model runner of
    the test file that follows the op in the source is embedded as well.

    Numbers.  A JavaScript number is an IEEE-754 float.  The embedding keeps
    what the code can observe of the special values (division by zero gives
    an infinity or NaN, every comparison with NaN is false) and takes the
    finite values as exact rationals: rounding to the nearest float is not
    represented.  Negative zero is not represented either: the code reachable
    from [threshold] never divides by a value whose sign could be negative
    zero. *)

From Stdlib Require Import String Ascii DecimalString.
From Stdlib Require Import ZArith QArith Qround Bool Lia Lqa List.
Import ListNotations.

#[local] Open Scope nat_scope.

(** ** Numbers *)

Inductive num : Type :=
| Fin (q : Q)
| PosInf
| NegInf
| NaN.

Definition ofZ (z : Z) : num := Fin (inject_Z z).
Definition ofNat (n : nat) : num := ofZ (Z.of_nat n).

Definition is_finite (x : num) : bool :=
  match x with Fin _ => true | _ => false end.

(** Sign of a rational, as a [comparison] with zero. *)
Definition Qsign (q : Q) : comparison := (q ?= 0)%Q.

Definition nneg (x : num) : num :=
  match x with
  | Fin q => Fin (Qred (- q))
  | PosInf => NegInf
  | NegInf => PosInf
  | NaN => NaN
  end.

Definition nadd (x y : num) : num :=
  match x, y with
  | NaN, _ | _, NaN => NaN
  | Fin a, Fin b => Fin (Qred (a + b))
  | PosInf, NegInf | NegInf, PosInf => NaN
  | PosInf, _ | _, PosInf => PosInf
  | NegInf, _ | _, NegInf => NegInf
  end.

Definition nsub (x y : num) : num := nadd x (nneg y).

(** The infinity of the sign of [c], NaN for a zero factor. *)
Definition inf_of_sign (c : comparison) : num :=
  match c with Gt => PosInf | Lt => NegInf | Eq => NaN end.

Definition nmul (x y : num) : num :=
  match x, y with
  | NaN, _ | _, NaN => NaN
  | Fin a, Fin b => Fin (Qred (a * b))
  | Fin a, PosInf | PosInf, Fin a => inf_of_sign (Qsign a)
  | Fin a, NegInf | NegInf, Fin a => inf_of_sign (CompOpp (Qsign a))
  | PosInf, PosInf | NegInf, NegInf => PosInf
  | PosInf, NegInf | NegInf, PosInf => NegInf
  end.

(** Division; a zero divisor is the positive zero. *)
Definition ndiv (x y : num) : num :=
  match x, y with
  | NaN, _ | _, NaN => NaN
  | Fin a, Fin b =>
      match Qsign b with
      | Eq => inf_of_sign (Qsign a)
      | _ => Fin (Qred (a / b))
      end
  | Fin _, _ => Fin 0
  | PosInf, Fin b => match Qsign b with Lt => NegInf | _ => PosInf end
  | NegInf, Fin b => match Qsign b with Lt => PosInf | _ => NegInf end
  | _, _ => NaN
  end.

(** Ordering: [None] when one side is NaN. *)
Definition ncompare (x y : num) : option comparison :=
  match x, y with
  | NaN, _ | _, NaN => None
  | Fin a, Fin b => Some (a ?= b)%Q
  | PosInf, PosInf | NegInf, NegInf => Some Eq
  | PosInf, _ | _, NegInf => Some Gt
  | NegInf, _ | _, PosInf => Some Lt
  end.

Definition ngtb (x y : num) : bool :=
  match ncompare x y with Some Gt => true | _ => false end.

Definition nleb (x y : num) : bool :=
  match ncompare x y with Some Lt | Some Eq => true | _ => false end.

Definition neqb (x y : num) : bool :=
  match ncompare x y with Some Eq => true | _ => false end.

(** [Math.floor]-based rounding of the library's [round]: half-way cases go
    to the even neighbour. *)
Definition round_half_even (q : Q) : Z :=
  let base := Qfloor q in
  match (q - inject_Z base ?= 1 # 2)%Q with
  | Lt => base
  | Gt => (base + 1)%Z
  | Eq => if Z.even base then base else (base + 1)%Z
  end.

Definition nround (x : num) : num :=
  match x with
  | Fin q => ofZ (round_half_even q)
  | _ => x
  end.

(** ToInt32 of the language: truncate towards zero, then wrap to 32 bits;
    NaN and the infinities become 0. *)
Definition wrap32 (z : Z) : Z :=
  ((z + 2 ^ 31) mod 2 ^ 32 - 2 ^ 31)%Z.

Definition toInt32 (x : num) : Z :=
  match x with
  | Fin q => wrap32 (Z.quot (Qnum q) (Z.pos (Qden q)))
  | _ => 0%Z
  end.

(** ** Tensors

    A tensor of the array library: its shape, its element type and its
    values in row-major order. *)

Inductive DataType : Type :=
| float32
| int32
| bool_
| complex64
| string_.

Definition DataType_eqb (a b : DataType) : bool :=
  match a, b with
  | float32, float32 | int32, int32 | bool_, bool_
  | complex64, complex64 | string_, string_ => true
  | _, _ => false
  end.

Definition DataType_name (d : DataType) : string :=
  match d with
  | float32 => "float32"
  | int32 => "int32"
  | bool_ => "bool"
  | complex64 => "complex64"
  | string_ => "string"
  end.

Record Tensor : Type := mkTensor {
  shape : list nat;
  dtype : DataType;
  values : list num
}.

Definition rank (t : Tensor) : nat := length (shape t).

Definition sizeFromShape (s : list nat) : nat := fold_right Nat.mul 1 s.

Definition size (t : Tensor) : nat := sizeFromShape (shape t).

(** [t.shape[i] === n]; an index past the rank reads [undefined], which
    equals no number. *)
Definition shape_is (t : Tensor) (i n : nat) : bool :=
  match nth_error (shape t) i with
  | Some m => m =? n
  | None => false
  end.

(** *** The array library

    [threshold.ts] imports its tensor operations from the array library
    ([mul], [add], [sub], [div], [greater], [lessEqual], [where], [sum],
    [slice], [range], [fill], [round], [cast], [split], [bincount],
    [tensor1d], [tensor]); their code is not part of the file.  They are given
    the meaning section 6 of the specification asks of them.  Broadcasting is
    supported in the two forms the op uses: operands with the same number of
    values, and an operand holding a single value. *)

(** Modelled from the spec: the element type of the result of an operation
    on two tensors (the library's type promotion, absent from the file). *)
Definition upcastType (a b : DataType) : DataType :=
  match a, b with
  | string_, _ | _, string_ => string_
  | complex64, _ | _, complex64 => complex64
  | float32, _ | _, float32 => float32
  | int32, _ | _, int32 => int32
  | bool_, bool_ => bool_
  end.

(** Modelled from the spec: the library's conversion of a number passed
    where a tensor is expected, a [float32] scalar. *)
Definition scalar (x : num) : Tensor :=
  {| shape := []; dtype := float32; values := [x] |}.

(** Modelled from the spec: the library's [tensor1d], absent from the file. *)
Definition tensor1d (xs : list num) : Tensor :=
  {| shape := [length xs]; dtype := float32; values := xs |}.

(** Modelled from the spec: the library's [tensor([])], the empty vector. *)
Definition tensor_empty : Tensor :=
  {| shape := [0]; dtype := float32; values := [] |}.

Fixpoint broadcast_rev (a b : list nat) : list nat :=
  match a, b with
  | [], s | s, [] => s
  | x :: a', y :: b' => (if x =? 1 then y else x) :: broadcast_rev a' b'
  end.

(** Modelled from the spec: the library's broadcast shape, absent from the
    file.  Shapes are aligned on their last dimension; a dimension of 1
    stretches. *)
Definition assertAndGetBroadcastShape (a b : list nat) : list nat :=
  rev (broadcast_rev (rev a) (rev b)).

Definition broadcastTo (n : nat) (xs : list num) : list num :=
  match xs with
  | [x] => repeat x n
  | _ => xs
  end.

Fixpoint zipWith {A B C : Type} (f : A -> B -> C) (xs : list A) (ys : list B)
  : list C :=
  match xs, ys with
  | x :: xs', y :: ys' => f x y :: zipWith f xs' ys'
  | _, _ => []
  end.

(** Modelled from the spec: the element-wise application of the library,
    absent from the file; an operand of a single value is repeated. *)
Definition broadcast_values (f : num -> num -> num) (xs ys : list num)
  : list num :=
  let n := Nat.max (length xs) (length ys) in
  zipWith f (broadcastTo n xs) (broadcastTo n ys).

(** Modelled from the spec: the library's element-wise arithmetic ([add],
    [sub], [mul], [div]), absent from the file. *)
Definition binaryOp (f : num -> num -> num) (a b : Tensor) : Tensor :=
  {| shape := assertAndGetBroadcastShape (shape a) (shape b);
     dtype := upcastType (dtype a) (dtype b);
     values := broadcast_values f (values a) (values b) |}.

Definition add : Tensor -> Tensor -> Tensor := binaryOp nadd.
Definition sub : Tensor -> Tensor -> Tensor := binaryOp nsub.
Definition mul : Tensor -> Tensor -> Tensor := binaryOp nmul.
Definition div : Tensor -> Tensor -> Tensor := binaryOp ndiv.

Definition ofBool (b : bool) : num := if b then ofZ 1 else ofZ 0.

(** Modelled from the spec: the library's comparisons ([greater],
    [lessEqual]), absent from the file; the result is a [bool] tensor of 0
    and 1. *)
Definition compareOp (f : num -> num -> bool) (a b : Tensor) : Tensor :=
  {| shape := assertAndGetBroadcastShape (shape a) (shape b);
     dtype := bool_;
     values := broadcast_values (fun x y => ofBool (f x y))
                 (values a) (values b) |}.

Definition greater : Tensor -> Tensor -> Tensor := compareOp ngtb.
Definition lessEqual : Tensor -> Tensor -> Tensor := compareOp nleb.

(** A value of a condition tensor is true when it is not zero. *)
Definition truthy (x : num) : bool := negb (neqb x (ofZ 0)).

Fixpoint select (cs xs ys : list num) : list num :=
  match cs, xs, ys with
  | c :: cs', x :: xs', y :: ys' =>
      (if truthy c then x else y) :: select cs' xs' ys'
  | _, _, _ => []
  end.

(** Modelled from the spec: the library's [where], absent from the file:
    the value of [a] where the condition holds, that of [b] elsewhere. *)
Definition where_ (condition a b : Tensor) : Tensor :=
  let s := assertAndGetBroadcastShape
             (assertAndGetBroadcastShape (shape condition) (shape a))
             (shape b) in
  let n := Nat.max (length (values condition))
             (Nat.max (length (values a)) (length (values b))) in
  {| shape := s;
     dtype := upcastType (dtype a) (dtype b);
     values := select (broadcastTo n (values condition))
                 (broadcastTo n (values a)) (broadcastTo n (values b)) |}.

Definition nsum (xs : list num) : num := fold_left nadd xs (ofZ 0).

(** Modelled from the spec: the library's [sum], absent from the file: the
    sum of all values, a tensor of rank 0. *)
Definition sum (t : Tensor) : Tensor :=
  {| shape := []; dtype := dtype t; values := [nsum (values t)] |}.

(** Modelled from the spec: the library's [slice(x, begin, size)] on a
    vector, absent from the file; without [size] the slice runs to the
    end. *)
Definition slice (t : Tensor) (begin : nat) (sz : option nat) : Tensor :=
  let n := match sz with
           | Some n => n
           | None => size t - begin
           end in
  {| shape := [n]; dtype := dtype t;
     values := firstn n (skipn begin (values t)) |}.

(** Modelled from the spec: the library's [range(start, stop)] with step 1,
    absent from the file. *)
Definition range (start stop : nat) : Tensor :=
  {| shape := [stop - start]; dtype := float32;
     values := map ofNat (seq start (stop - start)) |}.

(** Modelled from the spec: the library's [fill(shape, value)], absent from
    the file. *)
Definition fill (s : list nat) (value : num) : Tensor :=
  {| shape := s; dtype := float32; values := repeat value (sizeFromShape s) |}.

(** Modelled from the spec: the library's [round], absent from the file. *)
Definition round (t : Tensor) : Tensor :=
  {| shape := shape t; dtype := dtype t; values := map nround (values t) |}.

(** Modelled from the spec: the library's [cast], absent from the file; a
    cast to [int32] converts every value with ToInt32. *)
Definition cast (t : Tensor) (d : DataType) : Tensor :=
  {| shape := shape t; dtype := d;
     values := match d with
               | int32 => map (fun x => ofZ (toInt32 x)) (values t)
               | bool_ => map (fun x => ofBool (truthy x)) (values t)
               | _ => values t
               end |}.

(** The three planes of values interleaved in groups of three. *)
Fixpoint deinterleave3 (xs : list num) : list num * list num * list num :=
  match xs with
  | r :: g :: b :: rest =>
      let '(rs, gs, bs) := deinterleave3 rest in (r :: rs, g :: gs, b :: bs)
  | _ => ([], [], [])
  end.

(** Modelled from the spec: the library's [split(x, [1, 1, 1], -1)], absent
    from the file: the three channels of an image whose last dimension is
    3. *)
Definition split (t : Tensor) : Tensor * Tensor * Tensor :=
  let s := removelast (shape t) ++ [1] in
  let '(rs, gs, bs) := deinterleave3 (values t) in
  ({| shape := s; dtype := dtype t; values := rs |},
   {| shape := s; dtype := dtype t; values := gs |},
   {| shape := s; dtype := dtype t; values := bs |}).

(** Modelled from the spec: the library's [bincount(x, weights, size)] with
    empty weights, absent from the file: bucket [i] counts the values of [x]
    equal to [i], for [i] from 0 to [size - 1]. *)
Definition bincount (x weights : Tensor) (sz : nat) : Tensor :=
  let xs := map toInt32 (values x) in
  {| shape := [sz]; dtype := dtype weights;
     values := map (fun i => ofNat (count_occ Z.eq_dec xs (Z.of_nat i)))
                 (seq 0 sz) |}.

(** ** Failure

    [util.assert(cond, msg)] throws an [Error] carrying the message when the
    condition is false; the specification calls this failure
    [InvalidArgument].  A call either returns a value or throws. *)

Inductive Result (A : Type) : Type :=
| Ok (a : A)
| Throw (msg : string).

Arguments Ok {A} a.
Arguments Throw {A} msg.

Definition bind {A B : Type} (c : Result A) (k : A -> Result B) : Result B :=
  match c with
  | Ok a => k a
  | Throw msg => Throw msg
  end.

Notation "c ;; k" := (bind c (fun _ => k))
  (at level 61, right associativity).

Definition assert (cond : bool) (msg : string) : Result unit :=
  if cond then Ok tt else Throw msg.

Definition is_ok {A : Type} (c : Result A) : bool :=
  match c with Ok _ => true | Throw _ => false end.

(** The decimal text of a number inside a template string. *)
Definition string_of_nat (n : nat) : string :=
  NilEmpty.string_of_uint (Nat.to_uint n).

Definition string_of_dim (d : option nat) : string :=
  match d with
  | Some n => string_of_nat n
  | None => "undefined"
  end.

(** ** The Otsu search ([otsu], lines 141-181) *)

(** The value [cInBetVar] that one iteration of the loop computes for the
    split after bucket [index] (lines 151-171). *)
Definition cInBetVar_at (histogram : Tensor) (total : num) (index : nat)
  : Tensor :=
  let classFirst := slice histogram 0 (Some (index + 1)) in
  let classSecond := slice histogram (index + 1) None in
  let weightForeground := div (sum classFirst) (scalar total) in
  let weightBack := div (sum classSecond) (scalar total) in
  let meanFirstDivA := sum (mul classFirst (range 0 (size classFirst))) in
  let meanFirst := div meanFirstDivA (sum classFirst) in
  let meanSecFill := fill (shape classSecond) (ofNat (size classFirst)) in
  let meanSecAdd := add (range 0 (size classSecond)) meanSecFill in
  let meanSecMul := mul classSecond meanSecAdd in
  let meanSec := div (sum meanSecMul) (sum classSecond) in
  let cInBetVarSubA := sub meanFirst meanSec in
  let cInBetVarSubB := sub meanFirst meanSec in
  let cInBetVarMul := mul weightForeground weightBack in
  mul (mul cInBetVarMul cInBetVarSubA) cInBetVarSubB.

(** The loop carries [bestThresh] and [bestInBetVar]. *)
Definition otsu_iteration (histogram : Tensor) (total : num)
  (state : Tensor * Tensor) (index : nat) : Tensor * Tensor :=
  let '(bestThresh, bestInBetVar) := state in
  let cInBetVar := cInBetVar_at histogram total index in
  let condition := greater cInBetVar bestInBetVar in
  (where_ condition (tensor1d [ofNat index]) bestThresh,
   where_ condition cInBetVar bestInBetVar).

(** [for (let index = 0; index < histogram.size-1; index++)] from the
    initial [bestThresh = [-1]] and [bestInBetVar = [0]]. *)
Definition otsu_loop (histogram : Tensor) (total : num) (indices : list nat)
  : Tensor * Tensor :=
  fold_left (otsu_iteration histogram total) indices
    (tensor1d [ofZ (-1)], tensor1d [ofZ 0]).

Definition otsu (histogram : Tensor) (total : num) : Tensor :=
  fst (otsu_loop histogram total (seq 0 (size histogram - 1))).

(** ** The op ([threshold_], lines 71-139) *)

Definition RED_INTENCITY_COEF : num := Fin (2989 # 10000).
Definition GREEN_INTENCITY_COEF : num := Fin (5870 # 10000).
Definition BLUE_INTENCITY_COEF : num := Fin (1140 # 10000).

(** [$image.shape[0] * $image.shape[1]]; a missing dimension reads
    [undefined] and the product is NaN. *)
Definition totalPixelsInImage (image : Tensor) : num :=
  match nth_error (shape image) 0, nth_error (shape image) 1 with
  | Some h, Some w => ofNat (h * w)
  | _, _ => NaN
  end.

(** Lines 110-118. *)
Definition grayscale_of (image : Tensor) : Tensor :=
  if shape_is image 2 3 then
    let '(r, g, b) := split image in
    let r' := mul r (scalar RED_INTENCITY_COEF) in
    let g' := mul g (scalar GREEN_INTENCITY_COEF) in
    let b' := mul b (scalar BLUE_INTENCITY_COEF) in
    add (add r' g') b'
  else image.

Definition histogram_of (grayscale : Tensor) : Tensor :=
  bincount (cast (round grayscale) int32) tensor_empty 256.

Section Threshold.

(** The triangle search ([triangle] and [trimZeros], lines 183-250) works
    with [atan], [tan] and [sqrt] and with division by negative zero; it is
    kept abstract. *)
Variable triangle : Tensor -> Tensor.

(** Lines 87 and 120-131: the threshold the mask is computed against. *)
Definition threshold_of (image : Tensor) (method : string) (threshValue : num)
  : Tensor :=
  let grayscale := grayscale_of image in
  if String.eqb method "otsu" then
    otsu (histogram_of grayscale) (totalPixelsInImage image)
  else if String.eqb method "triangle" then
    triangle (histogram_of grayscale)
  else mul (tensor1d [threshValue]) (scalar (ofZ 255)).

Definition threshold_ (image : Tensor) (method : string) (inverted : bool)
  (threshValue : num) : Result Tensor :=
  assert (rank image =? 3)
    ("Error in threshold: image must be rank 3," ++
     "but got rank " ++ string_of_nat (rank image) ++ ".")%string ;;
  assert (shape_is image 2 3 || shape_is image 2 1)
    ("Error in threshold: " ++
     "image color channel must be equal to 3 or 1" ++
     "but got " ++ string_of_dim (nth_error (shape image) 2) ++ ".")%string ;;
  assert (DataType_eqb (dtype image) int32
          || DataType_eqb (dtype image) float32)
    ("Error in dtype: image dtype must be int32 or float32," ++
     "but got dtype " ++ DataType_name (dtype image) ++ ".")%string ;;
  assert (String.eqb method "otsu" || String.eqb method "binary")
    ("Method must be binary or otsu, but was " ++ method)%string ;;
  let grayscale := grayscale_of image in
  let threshold := threshold_of image method threshValue in
  let invCondition :=
    if inverted then lessEqual grayscale threshold
    else greater grayscale threshold in
  Ok (cast (mul invCondition (scalar (ofZ 255))) int32).

End Threshold.

(** The 2 x 2 x 1 image [[10, 200], [250, 5]]. *)
Definition image_2x2 : Tensor :=
  {| shape := [2; 2; 1]; dtype := float32;
     values := [ofZ 10; ofZ 200; ofZ 250; ofZ 5] |}.

Definition no_triangle (histogram : Tensor) : Tensor := histogram.


(** ** Vocabulary of the properties *)

(** The four assertions of [threshold_], in order. *)
Definition validated (image : Tensor) (method : string) : bool :=
  (rank image =? 3)
  && (shape_is image 2 3 || shape_is image 2 1)
  && (DataType_eqb (dtype image) int32 || DataType_eqb (dtype image) float32)
  && (String.eqb method "otsu" || String.eqb method "binary").

(** A valid image: rank 3, 1 or 3 channels, [int32] or [float32]. *)
Definition valid_image (image : Tensor) : Prop :=
  rank image = 3
  /\ (shape_is image 2 3 = true \/ shape_is image 2 1 = true)
  /\ (dtype image = int32 \/ dtype image = float32).

Definition finite_values (t : Tensor) : Prop :=
  Forall (fun x => is_finite x = true) (values t).

(** The value of an output pixel whose comparison gave [c]. *)
Definition pixel_of (c : bool) : num := if c then ofZ 255 else ofZ 0.

(** The comparison of line 134 against the threshold value [t]. *)
Definition passes (inverted : bool) (t x : num) : bool :=
  if inverted then nleb x t else ngtb x t.

(** The 0 <-> 255 complement of a binary image. *)
Definition complement (t : Tensor) : Tensor :=
  {| shape := shape t; dtype := dtype t;
     values := map (fun x => nsub (ofZ 255) x) (values t) |}.

(** The luma of one pixel, with the coefficients of lines 82-84. *)
Definition luma (r g b : num) : num :=
  nadd (nadd (nmul r (Fin (2989 # 10000))) (nmul g (Fin (5870 # 10000))))
       (nmul b (Fin (1140 # 10000))).

(** The number [cInBetVar] holds at [index]. *)
Definition variance_at (histogram : Tensor) (total : num) (index : nat) : num :=
  nth 0 (values (cInBetVar_at histogram total index)) NaN.

(** Section 4.2 of the specification, in its words: the between-class
    variance of the split of the buckets [h] after index [t], for [total]
    pixels.  The mean of the second class uses absolute intensities, its
    indices being offset by the length of the first class. *)
Definition weighted_sum (offset : nat) (xs : list num) : num :=
  nsum (zipWith nmul xs
          (map (fun i => nadd (ofNat i) (ofNat offset)) (seq 0 (length xs)))).

Definition betweenClassVariance (h : list num) (total : num) (t : nat) : num :=
  let classFirst := firstn (t + 1) h in
  let classSecond := skipn (t + 1) h in
  let weightForeground := ndiv (nsum classFirst) total in
  let weightBackground := ndiv (nsum classSecond) total in
  let meanFirst :=
    ndiv (nsum (zipWith nmul classFirst
                  (map ofNat (seq 0 (length classFirst)))))
         (nsum classFirst) in
  let meanSecond :=
    ndiv (weighted_sum (length classFirst) classSecond) (nsum classSecond) in
  nmul (nmul (nmul weightForeground weightBackground)
             (nsub meanFirst meanSecond))
       (nsub meanFirst meanSecond).

(** The running best of the loop on plain numbers: the pair of the best
    index and of its variance. *)
Definition best_step (var : nat -> num) (state : num * num) (index : nat)
  : num * num :=
  if ngtb (var index) (snd state) then (ofNat index, var index) else state.

Definition best_of (var : nat -> num) (indices : list nat) : num * num :=
  fold_left (best_step var) indices (ofZ (-1), ofZ 0).

(** A vector of 256 buckets. *)
Definition histogram256 (h : Tensor) : Prop :=
  shape h = [256] /\ length (values h) = 256.

Definition within_0_255 (x : num) : bool :=
  nleb (ofZ 0) x && nleb x (ofZ 255).

(** A 1 x 1 x 3 image. *)
Definition image_rgb : Tensor :=
  {| shape := [1; 1; 3]; dtype := int32;
     values := [ofZ 10; ofZ 20; ofZ 30] |}.

(** A 2 x 2 x 1 image of a single intensity, and its histogram. *)
Definition image_flat : Tensor :=
  {| shape := [2; 2; 1]; dtype := int32;
     values := [ofZ 100; ofZ 100; ofZ 100; ofZ 100] |}.

(** Lines 133-136: the mask of [grayscale] against [threshold], as 0/255. *)
Definition binarize (grayscale threshold : Tensor) (inverted : bool) : Tensor :=
  let invCondition :=
    if inverted then lessEqual grayscale threshold
    else greater grayscale threshold in
  cast (mul invCondition (scalar (ofZ 255))) int32.

(** The luma of every pixel of a row-major list of (r, g, b) triples. *)
Fixpoint luma_values (xs : list num) : list num :=
  match xs with
  | r :: g :: b :: rest => luma r g b :: luma_values rest
  | _ => []
  end.

(** What the search returns over the candidates [0 .. n-1] whose variances
    are [var]: either -1, and then no candidate has a variance above 0; or a
    candidate [k] of variance above 0 that no candidate beats, every earlier
    candidate being strictly below it or NaN. *)
Definition search_result (var : nat -> num) (n : nat) (t : num) : Prop :=
  (t = ofZ (-1) /\ forall i, i < n -> ngtb (var i) (ofZ 0) = false)
  \/ (exists k, k < n /\ t = ofNat k
        /\ ngtb (var k) (ofZ 0) = true
        /\ (forall i, i < n -> ngtb (var i) (var k) = false)
        /\ (forall i, i < k -> nleb (var k) (var i) = false)).

(** Line 126 is entered when the four assertions have passed, [method] is
    not ['otsu'] and [method] is ['triangle']. *)
Definition triangle_branch_taken (image : Tensor) (method : string) : bool :=
  validated image method
  && negb (String.eqb method "otsu")
  && String.eqb method "triangle".

(** A rank-2 tensor. *)
Definition image_rank2 : Tensor :=
  {| shape := [2; 2]; dtype := float32;
     values := [ofZ 10; ofZ 200; ofZ 250; ofZ 5] |}.

(** The optimality of the Otsu search as section 8 of the specification
    words it: the search returns a candidate [k] of [0 .. 254] whose variance
    is at least that of every candidate, no earlier candidate having the same
    variance. *)
Definition otsu_optimal_as_stated (h : Tensor) (total : num) : Prop :=
  let var := betweenClassVariance (values h) total in
  exists k, k < 255
    /\ values (otsu h total) = [ofNat k]
    /\ (forall i, i < 255 -> nleb (var i) (var k) = true)
    /\ (forall i, i < k -> neqb (var i) (var k) = false).

(** The image [[10, 200], [250, 5]] with element type [int32]. *)
Definition image_2x2_int : Tensor :=
  {| shape := [2; 2; 1]; dtype := int32;
     values := [ofZ 10; ofZ 200; ofZ 250; ofZ 5] |}.

(** A white pixel given with three channels. *)
Definition image_white : Tensor :=
  {| shape := [1; 1; 3]; dtype := int32;
     values := [ofZ 255; ofZ 255; ofZ 255] |}.

(** Bucket counts: finite numbers that are not negative. *)
Definition is_count (x : num) : Prop :=
  is_finite x = true /\ nleb (ofZ 0) x = true.

(** The rational a finite number stands for. *)
Definition qval (x : num) : Q :=
  match x with Fin q => q | _ => 0%Q end.

(** The exact sum of a list of buckets, and their sum weighted by [w] at the
    positions [s], [s + 1], ... *)
Fixpoint qsum (xs : list num) : Q :=
  match xs with
  | [] => 0%Q
  | x :: rest => (qval x + qsum rest)%Q
  end.

Fixpoint qweighted (w : nat -> Q) (s : nat) (xs : list num) : Q :=
  match xs with
  | [] => 0%Q
  | x :: rest => (qval x * w s + qweighted w (S s) rest)%Q
  end.

(** A 2 x 2 x 1 image of two intensities. *)
Definition image_two_tone : Tensor :=
  {| shape := [2; 2; 1]; dtype := int32;
     values := [ofNat 10; ofNat 200; ofNat 200; ofNat 10] |}.

(** ** The mock model runner (lines 275-331)

    The class [MockModelRunner] of the test file that follows the op.  Each
    tensor description carries a closure [data] returning its [Int32Array];
    the arrays of the inputs and of the outputs come from two calls of
    [getTensorInfos] and are distinct, so a description holds the content of
    its own array.  The type of the options is declared outside the file;
    the thread count is taken as a natural number. *)

Module MockRunner.

Record TFWebModelRunnerTensorInfo : Type := mkInfo {
  id : nat;
  dataType : string;
  name : string;
  shape : string;
  data : list Z
}.

Record MockModelRunner : Type := mkRunner {
  mockInferResults : list string;
  inputTensors : list TFWebModelRunnerTensorInfo;
  outputTensors : list TFWebModelRunnerTensorInfo;
  singleOutput : bool
}.

(** [new Int32Array(n)]: [n] zeros. *)
Definition newInt32Array (n : nat) : list Z := repeat 0%Z n.

(** [target.set(source)] of a typed array: a source longer than the target
    is a range error; otherwise the source, converted to 32 bits, replaces
    the first values of the target. *)
Definition typedArraySet (target source : list Z) : Result (list Z) :=
  if length target <? length source
  then Throw "RangeError: offset is out of bounds"
  else Ok (map wrap32 source ++ skipn (length source) target).

(** [shape.join(',')]. *)
Definition join (dims : list nat) : string :=
  String.concat "," (map string_of_nat dims).

Definition getTensorInfos : list TFWebModelRunnerTensorInfo :=
  let shape0 := [1; 2; 3] in
  let buffer0 := newInt32Array (fold_left (fun a c => a * c) shape0 1) in
  let shape1 := [1; 2] in
  let buffer1 := newInt32Array (fold_left (fun a c => a * c) shape1 1) in
  [ {| id := 0; dataType := "int32"; name := "t0"; shape := join shape0;
       data := buffer0 |};
    {| id := 1; dataType := "float32"; name := "t1"; shape := join shape1;
       data := buffer1 |} ].

(** The field initialisers, then the body of the constructor. *)
Definition constructor (modelPath : string) (numThreads : nat)
  : MockModelRunner :=
  {| mockInferResults :=
       ([] ++ [("ModelPath=" ++ modelPath)%string])
       ++ [("numThreads=" ++ string_of_nat numThreads)%string];
     inputTensors := getTensorInfos;
     outputTensors := getTensorInfos;
     singleOutput := false |}.

Definition getInputs (r : MockModelRunner) : list TFWebModelRunnerTensorInfo :=
  inputTensors r.

(** [this.outputTensors[0]] of an empty list is [undefined]. *)
Definition getOutputs (r : MockModelRunner)
  : list (option TFWebModelRunnerTensorInfo) :=
  if singleOutput r then [nth_error (outputTensors r) 0]
  else map Some (outputTensors r).

Fixpoint replace_nth {A : Type} (i : nat) (x : A) (l : list A) : list A :=
  match l, i with
  | [], _ => []
  | _ :: rest, 0 => x :: rest
  | y :: rest, S i' => y :: replace_nth i' x rest
  end.

Definition with_data (t : TFWebModelRunnerTensorInfo) (buffer : list Z)
  : TFWebModelRunnerTensorInfo :=
  {| id := id t; dataType := dataType t; name := name t; shape := shape t;
     data := buffer |}.

(** One iteration of the loop of [infer]: the array of output [i] receives
    the doubled values of the array of input [i].  A missing output is
    [undefined], whose [data] cannot be called. *)
Definition infer_iteration (r : MockModelRunner) (i : nat)
  : Result MockModelRunner :=
  match nth_error (inputTensors r) i, nth_error (outputTensors r) i with
  | Some inputTensor, Some outputTensor =>
      bind (typedArraySet (data outputTensor)
              (map (fun v => (v * 2)%Z) (data inputTensor)))
        (fun buffer =>
           Ok {| mockInferResults := mockInferResults r;
                 inputTensors := inputTensors r;
                 outputTensors :=
                   replace_nth i (with_data outputTensor buffer)
                     (outputTensors r);
                 singleOutput := singleOutput r |})
  | _, _ => Throw "TypeError: Cannot read properties of undefined"
  end.

Fixpoint infer_loop (indices : list nat) (r : MockModelRunner)
  : Result MockModelRunner :=
  match indices with
  | [] => Ok r
  | i :: rest => bind (infer_iteration r i) (infer_loop rest)
  end.

(** [infer()]: the runner after the call and the value returned. *)
Definition infer (r : MockModelRunner) : Result (MockModelRunner * bool) :=
  bind (infer_loop (seq 0 (length (inputTensors r))) r)
    (fun r' => Ok (r', true)).

Definition cleanUp (r : MockModelRunner) : MockModelRunner := r.

(** The output description [o] once [infer] has filled it from input [i]. *)
Definition doubled (i o : TFWebModelRunnerTensorInfo)
  : TFWebModelRunnerTensorInfo :=
  with_data o (map (fun v => wrap32 (v * 2)) (data i)).

(** Every input has an output whose array has the same length.  The
    constructor establishes this and no method changes a length. *)
Definition aligned (r : MockModelRunner) : Prop :=
  Forall2 (fun i o => length (data i) = length (data o))
    (inputTensors r) (outputTensors r).

End MockRunner.

(** The image [[10, 200], [250, 5]] written with natural intensities. *)
Definition image_2x2_nat : Tensor :=
  {| shape := [2; 2; 1]; dtype := int32;
     values := [ofNat 10; ofNat 200; ofNat 250; ofNat 5] |}.

(** * Properties *)

(** ** Order facts on numbers *)

Lemma Qcompare_cases (a b : Q) :
  match (a ?= b)%Q with
  | Lt => (a < b)%Q
  | Eq => (a == b)%Q
  | Gt => (b < a)%Q
  end.
Proof.
  destruct (a ?= b)%Q eqn:E.
  - now apply Qeq_alt.
  - now apply Qlt_alt.
  - now apply Qgt_alt.
Qed.

Ltac num_order :=
  unfold ngtb, nleb, neqb, ncompare;
  repeat match goal with
         | x : num |- _ => destruct x
         end;
  try discriminate; try reflexivity; try tauto;
  repeat match goal with
         | |- context [(?a ?= ?b)%Q] =>
             let H := fresh "C" in
             pose proof (Qcompare_cases a b) as H;
             destruct (a ?= b)%Q
         end;
  intros; try discriminate; try reflexivity; try tauto;
  exfalso; lra.

Lemma ngtb_irrefl (x : num) : ngtb x x = false.
Proof. num_order. Qed.

Lemma ngtb_trans (x y z : num) :
  ngtb x y = true -> ngtb y z = true -> ngtb x z = true.
Proof. num_order. Qed.

(** What does not beat the old best does not beat a better one. *)
Lemma ngtb_false_raise (x b c : num) :
  ngtb x b = false -> ngtb c b = true -> ngtb x c = false.
Proof. num_order. Qed.

Lemma nleb_above (x b c : num) :
  ngtb c b = true -> nleb c x = true -> ngtb x b = true.
Proof. num_order. Qed.

Lemma ngtb_not_nan_l (x y : num) : ngtb x y = true -> x <> NaN.
Proof. intros H ->. discriminate H. Qed.

(** Away from NaN the two comparisons of the op are complementary. *)
Lemma nleb_negb_ngtb (x y : num) :
  x <> NaN -> y <> NaN -> nleb x y = negb (ngtb x y).
Proof.
  intros Hx Hy. unfold nleb, ngtb, ncompare.
  destruct x, y; try congruence; try reflexivity.
  now destruct (q ?= q0)%Q.
Qed.

Lemma ngtb_false_nleb (x y : num) :
  x <> NaN -> y <> NaN -> ngtb x y = false -> nleb x y = true.
Proof.
  intros Hx Hy H. rewrite nleb_negb_ngtb by assumption. now rewrite H.
Qed.

(** ** Broadcasting *)

Lemma zipWith_repeat (f : num -> num -> num) (xs : list num) (y : num) :
  zipWith f xs (repeat y (length xs)) = map (fun x => f x y) xs.
Proof.
  induction xs as [|x xs IH]; simpl; [reflexivity | now rewrite IH].
Qed.

Lemma broadcastTo_length (n : nat) (xs : list num) :
  length xs = n -> broadcastTo n xs = xs.
Proof.
  intros <-. destruct xs as [|x [|x' xs]]; reflexivity.
Qed.

Lemma broadcast_values_single_r (f : num -> num -> num) xs (y : num) :
  broadcast_values f xs [y] = map (fun x => f x y) xs.
Proof.
  unfold broadcast_values.
  destruct xs as [|x [|x' xs]]; try reflexivity.
  change (Nat.max (length (x :: x' :: xs)) (length [y]))
    with (length (x :: x' :: xs)).
  rewrite broadcastTo_length by reflexivity.
  apply zipWith_repeat.
Qed.

Lemma broadcast_values_same (f : num -> num -> num) xs ys :
  length xs = length ys ->
  broadcast_values f xs ys = zipWith f xs ys.
Proof.
  intros H. unfold broadcast_values.
  rewrite <- H, Nat.max_id.
  now rewrite !broadcastTo_length by auto.
Qed.

Lemma length_zipWith {A B C : Type} (f : A -> B -> C) xs ys :
  length xs = length ys -> length (zipWith f xs ys) = length xs.
Proof.
  revert ys. induction xs as [|x xs IH]; intros [|y ys] H; simpl in *;
    try reflexivity; try discriminate.
  now rewrite IH by congruence.
Qed.

Lemma broadcast_shape_nil_r (s : list nat) :
  assertAndGetBroadcastShape s [] = s.
Proof.
  unfold assertAndGetBroadcastShape. simpl.
  rewrite <- (rev_involutive s) at 2.
  now destruct (rev s).
Qed.

Lemma broadcast_shape_3_1 (h w c : nat) :
  assertAndGetBroadcastShape [h; w; c] [1] = [h; w; c].
Proof.
  unfold assertAndGetBroadcastShape. simpl.
  destruct (Nat.eqb_spec c 1) as [->|]; reflexivity.
Qed.

(** ** The mask *)

Lemma pixel_of_cast (c : bool) :
  ofZ (toInt32 (nmul (ofBool c) (ofZ 255))) = pixel_of c.
Proof. now destruct c. Qed.

Lemma binarize_values (g th : Tensor) (inverted : bool) (t : num) :
  values th = [t] ->
  values (binarize g th inverted)
  = map (fun x => pixel_of (passes inverted t x)) (values g).
Proof.
  intros Ht. unfold binarize, passes.
  destruct inverted; simpl; rewrite Ht, !broadcast_values_single_r,
    !map_map; apply map_ext; intros x; apply pixel_of_cast.
Qed.

Lemma binarize_shape (g th : Tensor) (inverted : bool) :
  shape (binarize g th inverted)
  = assertAndGetBroadcastShape (shape g) (shape th).
Proof.
  unfold binarize. destruct inverted; simpl; apply broadcast_shape_nil_r.
Qed.

Lemma binarize_dtype (g th : Tensor) (inverted : bool) :
  dtype (binarize g th inverted) = int32.
Proof. reflexivity. Qed.

(** ** Validation *)

Lemma threshold_validated tri image method inverted v :
  validated image method = true ->
  threshold_ tri image method inverted v
  = Ok (binarize (grayscale_of image) (threshold_of tri image method v)
          inverted).
Proof.
  unfold validated, threshold_. intros H.
  apply andb_prop in H as [H H4]. apply andb_prop in H as [H H3].
  apply andb_prop in H as [H1 H2].
  rewrite H1, H2, H3, H4. reflexivity.
Qed.

Lemma threshold_rejected tri image method inverted v :
  validated image method = false ->
  exists msg, threshold_ tri image method inverted v = Throw msg.
Proof.
  unfold validated, threshold_. intros H.
  destruct (rank image =? 3); [|eexists; reflexivity].
  destruct (shape_is image 2 3 || shape_is image 2 1);
    [|eexists; reflexivity].
  destruct (DataType_eqb (dtype image) int32
            || DataType_eqb (dtype image) float32); [|eexists; reflexivity].
  destruct (String.eqb method "otsu" || String.eqb method "binary");
    [discriminate H | eexists; reflexivity].
Qed.

Lemma valid_image_validated image method :
  valid_image image -> method = "binary"%string \/ method = "otsu"%string ->
  validated image method = true.
Proof.
  intros (Hr & Hc & Hd) Hm. unfold validated.
  rewrite Hr. simpl.
  assert (shape_is image 2 3 || shape_is image 2 1 = true) as ->
    by (destruct Hc as [-> | ->]; auto using orb_true_r).
  assert (DataType_eqb (dtype image) int32
          || DataType_eqb (dtype image) float32 = true) as ->
    by (destruct Hd as [-> | ->]; reflexivity).
  destruct Hm as [-> | ->]; reflexivity.
Qed.

Lemma valid_image_shape image :
  valid_image image ->
  exists h w c, shape image = [h; w; c] /\ (c = 3 \/ c = 1).
Proof.
  intros (Hr & Hc & _). unfold rank in Hr. unfold shape_is in Hc.
  destruct (shape image) as [|h [|w [|c [|? ?]]]]; try discriminate.
  exists h, w, c. split; [reflexivity|].
  simpl in Hc. destruct Hc as [H | H]; apply Nat.eqb_eq in H; auto.
Qed.

(** ** Channel reduction *)

Lemma list_ind3 (P : list num -> Prop) :
  P [] -> (forall a, P [a]) -> (forall a b, P [a; b]) ->
  (forall r g b rest, P rest -> P (r :: g :: b :: rest)) ->
  forall xs, P xs.
Proof.
  intros H0 H1 H2 H3. fix IH 1.
  intros [|r [|g [|b rest]]];
    [exact H0 | apply H1 | apply H2 | apply H3, IH].
Qed.

Lemma deinterleave3_luma (xs : list num) :
  let '(rs, gs, bs) := deinterleave3 xs in
  length gs = length rs /\ length bs = length rs
  /\ zipWith nadd
       (zipWith nadd (map (fun x => nmul x RED_INTENCITY_COEF) rs)
                     (map (fun x => nmul x GREEN_INTENCITY_COEF) gs))
       (map (fun x => nmul x BLUE_INTENCITY_COEF) bs)
     = luma_values xs.
Proof.
  induction xs as [| | |r g b rest IH] using list_ind3;
    try (simpl; auto; fail).
  simpl. destruct (deinterleave3 rest) as [[rs gs] bs].
  destruct IH as (Hg & Hb & IH). simpl.
  repeat split; try congruence.
  now rewrite IH.
Qed.

Lemma broadcast_rev_same (a : list nat) : broadcast_rev a a = a.
Proof.
  induction a as [|x a IH]; simpl; [reflexivity|].
  rewrite IH. now destruct (x =? 1).
Qed.

Lemma broadcast_shape_same (s : list nat) :
  assertAndGetBroadcastShape s s = s.
Proof.
  unfold assertAndGetBroadcastShape.
  now rewrite broadcast_rev_same, rev_involutive.
Qed.

Lemma grayscale_one_channel (image : Tensor) :
  shape_is image 2 3 = false -> grayscale_of image = image.
Proof. unfold grayscale_of. now intros ->. Qed.

Lemma grayscale_three_values (image : Tensor) :
  shape_is image 2 3 = true ->
  values (grayscale_of image) = luma_values (values image).
Proof.
  unfold grayscale_of, split. intros ->.
  pose proof (deinterleave3_luma (values image)) as H.
  destruct (deinterleave3 (values image)) as [[rs gs] bs].
  destruct H as (Hg & Hb & H). simpl.
  rewrite !broadcast_values_single_r.
  rewrite (broadcast_values_same nadd (map _ rs) (map _ gs))
    by (now rewrite !length_map).
  rewrite broadcast_values_same; [exact H|].
  rewrite length_zipWith; rewrite !length_map; congruence.
Qed.

Lemma grayscale_three_shape (image : Tensor) (h w c : nat) :
  shape image = [h; w; c] -> shape_is image 2 3 = true ->
  shape (grayscale_of image) = [h; w; 1].
Proof.
  unfold grayscale_of, split. intros Hs ->.
  destruct (deinterleave3 (values image)) as [[rs gs] bs]. simpl.
  rewrite Hs. simpl.
  now rewrite !broadcast_shape_nil_r, !broadcast_shape_same.
Qed.

Lemma grayscale_shape (image : Tensor) (h w c : nat) :
  shape image = [h; w; c] -> c = 3 \/ c = 1 ->
  shape (grayscale_of image) = [h; w; 1].
Proof.
  intros Hs [-> | ->].
  - apply grayscale_three_shape with (c := 3); [exact Hs|].
    unfold shape_is. now rewrite Hs.
  - rewrite grayscale_one_channel; [exact Hs|].
    unfold shape_is. now rewrite Hs.
Qed.

Lemma luma_values_nth (i : nat) : forall (xs : list num) (r g b : num),
  nth_error xs (3 * i) = Some r ->
  nth_error xs (3 * i + 1) = Some g ->
  nth_error xs (3 * i + 2) = Some b ->
  nth_error (luma_values xs) i = Some (luma r g b).
Proof.
  induction i as [|i IH]; intros xs r g b Hr Hg Hb.
  - destruct xs as [|r' [|g' [|b' rest]]]; simpl in *; try discriminate.
    congruence.
  - replace (3 * S i) with (S (S (S (3 * i)))) in * by lia.
    destruct xs as [|r' [|g' [|b' rest]]]; simpl in *; try discriminate.
    now apply IH.
Qed.

Lemma luma_values_length (xs : list num) (n : nat) :
  length xs = 3 * n -> length (luma_values xs) = n.
Proof.
  revert n. induction xs as [| | |r g b rest IH] using list_ind3;
    intros n H; simpl in *; try lia.
  destruct n as [|n]; [lia|]. f_equal. apply IH. lia.
Qed.



(** ** The Otsu search *)

Lemma broadcast_values_singletons (f : num -> num -> num) (x y : num) :
  broadcast_values f [x] [y] = [f x y].
Proof. reflexivity. Qed.

Lemma cInBetVar_at_shape h total i : shape (cInBetVar_at h total i) = [].
Proof. reflexivity. Qed.

Lemma cInBetVar_at_values h total i :
  values (cInBetVar_at h total i) = [variance_at h total i].
Proof. reflexivity. Qed.

Lemma variance_at_spec (h : Tensor) (total : num) (n i : nat) :
  shape h = [n] -> length (values h) = n -> i + 1 <= n ->
  variance_at h total i = betweenClassVariance (values h) total i.
Proof.
  intros Hs Hl Hi.
  unfold variance_at, cInBetVar_at, betweenClassVariance, weighted_sum.
  unfold div, mul, sub, add, binaryOp, sum, slice, range, fill, scalar, size.
  rewrite Hs.
  cbn [values shape sizeFromShape fold_right skipn].
  rewrite !broadcast_values_singletons.
  cbn [nth].
  set (cf := firstn (i + 1) (values h)).
  set (cs := skipn (i + 1) (values h)).
  assert (Hcf : length cf = i + 1)
    by (unfold cf; rewrite length_firstn; lia).
  assert (Hcs : length cs = n - (i + 1))
    by (unfold cs; rewrite length_skipn; lia).
  replace (n * 1 - (i + 1)) with (length cs) by lia.
  replace ((i + 1) * 1 - 0) with (length cf) by lia.
  replace ((i + 1) * 1) with (length cf) by lia.
  replace (length cs * 1 - 0) with (length cs) by lia.
  replace (length cs * 1) with (length cs) by lia.
  rewrite (firstn_all cs).
  rewrite (broadcast_values_same nmul cf)
    by (now rewrite length_map, length_seq).
  rewrite (broadcast_values_same nadd)
    by (now rewrite length_map, length_seq, repeat_length).
  replace (repeat (ofNat (length cf)) (length cs))
    with (repeat (ofNat (length cf))
            (length (map ofNat (seq 0 (length cs)))))
    by (now rewrite length_map, length_seq).
  rewrite zipWith_repeat, map_map.
  rewrite (broadcast_values_same nmul cs)
    by (now rewrite length_map, length_seq).
  reflexivity.
Qed.

Lemma truthy_ofBool (c : bool) : truthy (ofBool c) = c.
Proof. now destruct c. Qed.

Lemma otsu_iteration_scalar h total (T B : Tensor) (t b : num) (i : nat) :
  shape T = [1] -> values T = [t] -> shape B = [1] -> values B = [b] ->
  let state := otsu_iteration h total (T, B) i in
  let best := best_step (variance_at h total) (t, b) i in
  shape (fst state) = [1] /\ values (fst state) = [fst best]
  /\ shape (snd state) = [1] /\ values (snd state) = [snd best].
Proof.
  intros HsT HvT HsB HvB. unfold otsu_iteration, best_step, where_, greater,
    compareOp.
  cbn [fst snd shape values tensor1d length].
  rewrite cInBetVar_at_shape, cInBetVar_at_values, HsT, HvT, HsB, HvB.
  rewrite broadcast_values_singletons.
  cbn [length Nat.max broadcastTo repeat select].
  rewrite truthy_ofBool.
  repeat split; try reflexivity;
    now destruct (ngtb (variance_at h total i) b).
Qed.

Lemma otsu_fold_scalar h total (indices : list nat) :
  forall (T B : Tensor) (t b : num),
    shape T = [1] -> values T = [t] -> shape B = [1] -> values B = [b] ->
    let state := fold_left (otsu_iteration h total) indices (T, B) in
    let best := fold_left (best_step (variance_at h total)) indices (t, b) in
    shape (fst state) = [1] /\ values (fst state) = [fst best]
    /\ shape (snd state) = [1] /\ values (snd state) = [snd best].
Proof.
  induction indices as [|i indices IH]; intros T B t b HsT HvT HsB HvB.
  - simpl. auto.
  - cbn [fold_left].
    destruct (otsu_iteration_scalar h total T B t b i HsT HvT HsB HvB)
      as (H1 & H2 & H3 & H4).
    destruct (otsu_iteration h total (T, B) i) as [T' B'].
    destruct (best_step (variance_at h total) (t, b) i) as [t' b'].
    now apply IH.
Qed.

Lemma otsu_scalar h total :
  shape (otsu h total) = [1]
  /\ values (otsu h total)
     = [fst (best_of (variance_at h total) (seq 0 (size h - 1)))].
Proof.
  unfold otsu, otsu_loop, best_of.
  destruct (otsu_fold_scalar h total (seq 0 (size h - 1))
              (tensor1d [ofZ (-1)]) (tensor1d [ofZ 0]) (ofZ (-1)) (ofZ 0))
    as (H1 & H2 & _); auto.
Qed.

(** The invariant of the running best after the candidates [0 .. n-1]. *)
Lemma best_of_invariant (var : nat -> num) (n : nat) :
  exists t b, best_of var (seq 0 n) = (t, b)
  /\ ((t = ofZ (-1) /\ b = ofZ 0
       /\ forall i, i < n -> ngtb (var i) (ofZ 0) = false)
      \/ (exists k, k < n /\ t = ofNat k /\ b = var k
            /\ ngtb (var k) (ofZ 0) = true
            /\ (forall i, i < n -> ngtb (var i) (var k) = false)
            /\ (forall i, i < k -> nleb (var k) (var i) = false))).
Proof.
  induction n as [|n (t & b & Hbest & Inv)].
  - exists (ofZ (-1)), (ofZ 0). split; [reflexivity|].
    left. repeat split. intros i Hi. lia.
  - unfold best_of in *. rewrite seq_S, fold_left_app, Hbest.
    cbn [fold_left Nat.add]. unfold best_step. cbn [snd].
    destruct (ngtb (var n) b) eqn:Hgt.
    + (* the candidate [n] becomes the best *)
      exists (ofNat n), (var n). split; [reflexivity|]. right.
      exists n.
      assert (Hold : forall i, i < n -> ngtb (var i) b = false).
      { destruct Inv as [(_ & -> & H) | (k & _ & _ & -> & _ & H & _)];
          exact H. }
      assert (Hpos : ngtb (var n) (ofZ 0) = true).
      { destruct Inv as [(_ & -> & _) | (k & _ & _ & -> & Hk & _)].
        - exact Hgt.
        - now apply ngtb_trans with (y := var k). }
      repeat split; auto.
      * intros i Hi. destruct (Nat.eq_dec i n) as [-> | Hne].
        -- apply ngtb_irrefl.
        -- apply ngtb_false_raise with (b := b); [apply Hold; lia | exact Hgt].
      * intros i Hi. destruct (nleb (var n) (var i)) eqn:Hle; [|reflexivity].
        specialize (Hold i Hi).
        rewrite (nleb_above (var i) b (var n) Hgt Hle) in Hold.
        discriminate.
    + (* the best is kept *)
      exists t, b. split; [reflexivity|].
      destruct Inv as [(-> & -> & H) | (k & Hk & -> & -> & Hpos & H & He)].
      * left. repeat split. intros i Hi.
        destruct (Nat.eq_dec i n) as [-> | Hne]; [exact Hgt | apply H; lia].
      * right. exists k. repeat split; auto.
        intros i Hi.
        destruct (Nat.eq_dec i n) as [-> | Hne]; [exact Hgt | apply H; lia].
Qed.

Lemma best_of_search_result (var : nat -> num) (n : nat) :
  search_result var n (fst (best_of var (seq 0 n))).
Proof.
  destruct (best_of_invariant var n) as (t & b & -> & Inv). cbn [fst].
  destruct Inv as [(-> & _ & H) | (k & Hk & -> & _ & H)].
  - now left.
  - right. now exists k.
Qed.

Lemma otsu_search_result (h : Tensor) (total : num) :
  shape (otsu h total) = [1]
  /\ exists t, values (otsu h total) = [t]
       /\ search_result (variance_at h total) (size h - 1) t.
Proof.
  destruct (otsu_scalar h total) as (Hs & Hv).
  split; [exact Hs|]. eexists. split; [exact Hv|].
  apply best_of_search_result.
Qed.

(** ** The threshold of an accepted call *)

Lemma validated_method image method :
  validated image method = true ->
  method = "binary"%string \/ method = "otsu"%string.
Proof.
  unfold validated. intros H. apply andb_prop in H as [_ H].
  apply orb_prop in H as [H | H]; apply String.eqb_eq in H; auto.
Qed.

Lemma validated_valid image method :
  validated image method = true -> valid_image image.
Proof.
  unfold validated, valid_image. intros H.
  apply andb_prop in H as [H _]. apply andb_prop in H as [H H3].
  apply andb_prop in H as [H1 H2].
  split; [now apply Nat.eqb_eq|]. split.
  - now apply orb_prop.
  - apply orb_prop in H3. destruct (dtype image); simpl in H3; intuition
      discriminate.
Qed.

Lemma threshold_of_binary tri image v :
  threshold_of tri image "binary" v
  = {| shape := [1]; dtype := float32; values := [nmul v (ofZ 255)] |}.
Proof. reflexivity. Qed.

Lemma threshold_of_otsu tri image v :
  threshold_of tri image "otsu" v
  = otsu (histogram_of (grayscale_of image)) (totalPixelsInImage image).
Proof. reflexivity. Qed.

Lemma threshold_of_single tri image method v :
  method = "binary"%string \/ method = "otsu"%string ->
  shape (threshold_of tri image method v) = [1]
  /\ exists t, values (threshold_of tri image method v) = [t].
Proof.
  intros [-> | ->].
  - rewrite threshold_of_binary. simpl. eauto.
  - rewrite threshold_of_otsu.
    destruct (otsu_search_result (histogram_of (grayscale_of image))
                (totalPixelsInImage image)) as (Hs & t & Hv & _).
    eauto.
Qed.

Lemma tensor_eq (a b : Tensor) :
  shape a = shape b -> dtype a = dtype b -> values a = values b -> a = b.
Proof. destruct a, b; simpl; congruence. Qed.

Lemma accepted_call tri image method inverted v :
  valid_image image ->
  method = "binary"%string \/ method = "otsu"%string ->
  exists h w c t,
    shape image = [h; w; c] /\ (c = 3 \/ c = 1)
    /\ values (threshold_of tri image method v) = [t]
    /\ threshold_ tri image method inverted v
       = Ok {| shape := [h; w; 1]; dtype := int32;
               values := map (fun x => pixel_of (passes inverted t x))
                           (values (grayscale_of image)) |}.
Proof.
  intros Hv Hm.
  destruct (valid_image_shape image Hv) as (h & w & c & Hs & Hc).
  destruct (threshold_of_single tri image method v Hm) as (Hts & t & Htv).
  exists h, w, c, t. repeat split; auto.
  rewrite threshold_validated by now apply valid_image_validated.
  f_equal. apply tensor_eq.
  - rewrite binarize_shape, Hts, (grayscale_shape image h w c Hs Hc).
    apply broadcast_shape_3_1.
  - reflexivity.
  - now apply binarize_values.
Qed.

(** ** The claims *)

(** C1.  The method ['triangle'] is not accepted: whatever the image, the
    call throws, and for an image that passes the first three assertions the
    message is that of the method assertion of lines 106-108.  The doc
    comment of the op lists ['triangle'] and line 126 handles it. *)
Theorem triangle_rejected (tri : Tensor -> Tensor) (image : Tensor)
  (inverted : bool) (v : num) :
  is_ok (threshold_ tri image "triangle" inverted v) = false
  /\ threshold_ tri image_2x2 "triangle" inverted v
     = Throw "Method must be binary or otsu, but was triangle".
Proof.
  split; [|reflexivity].
  destruct (threshold_rejected tri image "triangle" inverted v) as (msg & ->).
  - unfold validated. simpl. apply andb_false_r.
  - reflexivity.
Qed.






(** C7.  An image whose rank is not 3, or whose channel count is neither 1
    nor 3, or whose type is neither [int32] nor [float32], or a method other
    than ['binary'], ['otsu'] and ['triangle'], makes the op throw: no tensor
    is returned. *)
Theorem validation_fails_fast (tri : Tensor -> Tensor) (image : Tensor)
  (method : string) (inverted : bool) (v : num) :
  rank image <> 3
  \/ (shape_is image 2 1 = false /\ shape_is image 2 3 = false)
  \/ (dtype image <> int32 /\ dtype image <> float32)
  \/ (method <> "binary"%string /\ method <> "otsu"%string
      /\ method <> "triangle"%string) ->
  exists msg, threshold_ tri image method inverted v = Throw msg.
Proof.
  intros H. apply threshold_rejected. unfold validated.
  destruct H as [H | [(H1 & H3) | [(Hi & Hf) | (Hb & Ho & _)]]].
  - apply Nat.eqb_neq in H. now rewrite H.
  - rewrite H1, H3. simpl. now rewrite andb_false_r.
  - destruct (dtype image); try congruence;
      simpl; now rewrite andb_false_r.
  - apply String.eqb_neq in Hb, Ho. rewrite Hb, Ho.
    simpl. apply andb_false_r.
Qed.

Lemma validation_fails_fast_witness :
  (exists msg,
      threshold_ no_triangle image_rank2 "binary" false (Fin (1 # 2))
      = Throw msg)
  /\ (exists msg,
      threshold_ no_triangle image_2x2 "adaptive" false (Fin (1 # 2))
      = Throw msg).
Proof.
  split.
  - apply (validation_fails_fast no_triangle image_rank2 "binary" false
             (Fin (1 # 2))).
    left. unfold rank. simpl. lia.
  - apply (validation_fails_fast no_triangle image_2x2 "adaptive" false
             (Fin (1 # 2))).
    right; right; right. repeat split; discriminate.
Defined.

(** C9.  The branch of line 126 is never entered, and the result of the op
    does not depend on what [triangle] computes. *)
Theorem triangle_unreachable (image : Tensor) (method : string)
  (inverted : bool) (v : num) :
  triangle_branch_taken image method = false
  /\ forall tri1 tri2 : Tensor -> Tensor,
       threshold_ tri1 image method inverted v
       = threshold_ tri2 image method inverted v.
Proof.
  split.
  - unfold triangle_branch_taken.
    destruct (validated image method) eqn:Hval; [|reflexivity].
    destruct (validated_method image method Hval) as [-> | ->]; reflexivity.
  - intros tri1 tri2. destruct (validated image method) eqn:Hval.
    + rewrite !threshold_validated by exact Hval.
      destruct (validated_method image method Hval) as [-> | ->].
      * now rewrite !threshold_of_binary.
      * now rewrite !threshold_of_otsu.
    + unfold validated in Hval. unfold threshold_.
      destruct (rank image =? 3); [|reflexivity].
      destruct (shape_is image 2 3 || shape_is image 2 1); [|reflexivity].
      destruct (DataType_eqb (dtype image) int32
                || DataType_eqb (dtype image) float32); [|reflexivity].
      destruct (String.eqb method "otsu" || String.eqb method "binary");
        [discriminate Hval | reflexivity].
Qed.

Lemma ofNat_inj (a b : nat) : ofNat a = ofNat b -> a = b.
Proof.
  unfold ofNat, ofZ, inject_Z. intros H. injection H as H. lia.
Qed.

Lemma ofNat_not_minus_one (k : nat) : ofZ (-1) <> ofNat k.
Proof.
  unfold ofNat, ofZ, inject_Z. intros H. injection H as H. lia.
Qed.

Lemma search_result_ext (var var' : nat -> num) (n : nat) (t : num) :
  (forall i, i < n -> var i = var' i) ->
  search_result var n t -> search_result var' n t.
Proof.
  intros E [(Ht & H) | (k & Hk & Ht & Hpos & Hmax & Hfirst)].
  - left. split; [exact Ht|]. intros i Hi. rewrite <- E by exact Hi. auto.
  - right. exists k. repeat split; auto.
    + now rewrite <- E.
    + intros i Hi. rewrite <- !E by lia. auto.
    + intros i Hi. rewrite <- !E by lia. auto.
Qed.

Lemma histogram256_size (h : Tensor) : histogram256 h -> size h - 1 = 255.
Proof. intros (Hs & _). unfold size. now rewrite Hs. Qed.




(** ** Inversion *)

Lemma is_finite_not_nan (x : num) : is_finite x = true -> x <> NaN.
Proof. now destruct x. Qed.

Lemma luma_finite (r g b : num) :
  is_finite r = true -> is_finite g = true -> is_finite b = true ->
  is_finite (luma r g b) = true.
Proof. destruct r, g, b; try discriminate. reflexivity. Qed.

Lemma luma_values_finite (xs : list num) :
  Forall (fun x => is_finite x = true) xs ->
  Forall (fun x => is_finite x = true) (luma_values xs).
Proof.
  induction xs as [| | |r g b rest IH] using list_ind3; intros H;
    try (simpl; constructor).
  - inversion H as [|? ? Hr H1]; subst. inversion H1 as [|? ? Hg H2]; subst.
    inversion H2 as [|? ? Hb H3]; subst. now apply luma_finite.
  - apply IH.
    inversion H as [|? ? Hr H1]; subst. inversion H1 as [|? ? Hg H2]; subst.
    now inversion H2.
Qed.

Lemma grayscale_finite (image : Tensor) :
  finite_values image ->
  Forall (fun x => x <> NaN) (values (grayscale_of image)).
Proof.
  intros H.
  assert (Hfin : finite_values (grayscale_of image)).
  { destruct (shape_is image 2 3) eqn:E.
    - unfold finite_values. rewrite grayscale_three_values by exact E.
      now apply luma_values_finite.
    - now rewrite grayscale_one_channel. }
  unfold finite_values in Hfin. rewrite Forall_forall in *.
  intros x Hx. apply is_finite_not_nan. now apply Hfin.
Qed.

Lemma pixel_of_complement (c : bool) :
  nsub (ofZ 255) (pixel_of c) = pixel_of (negb c).
Proof. now destruct c. Qed.

Lemma threshold_not_nan tri image method v :
  method = "binary"%string \/ method = "otsu"%string ->
  v <> NaN ->
  forall t, values (threshold_of tri image method v) = [t] -> t <> NaN.
Proof.
  intros [-> | ->] Hv t Ht.
  - rewrite threshold_of_binary in Ht. injection Ht as <-.
    destruct v; try congruence; discriminate.
  - rewrite threshold_of_otsu in Ht.
    destruct (otsu_search_result (histogram_of (grayscale_of image))
                (totalPixelsInImage image)) as (_ & t' & Hv' & Hres).
    rewrite Hv' in Ht. injection Ht as ->.
    destruct Hres as [(-> & _) | (k & _ & -> & _)]; discriminate.
Qed.




(** ** The range of the threshold *)

Lemma binary_threshold_range (v : num) :
  nleb (ofZ 0) v = true -> nleb v (ofZ 1) = true ->
  within_0_255 (nmul v (ofZ 255)) = true.
Proof.
  destruct v as [q| | |]; try discriminate.
  unfold within_0_255, nleb, ncompare, nmul, ofZ. intros H0 H1.
  pose proof (Qred_correct (q * inject_Z 255)) as Hred.
  pose proof (Qcompare_cases (inject_Z 0) q) as C0.
  pose proof (Qcompare_cases q (inject_Z 1)) as C1.
  pose proof (Qcompare_cases (inject_Z 0) (Qred (q * inject_Z 255))) as C2.
  pose proof (Qcompare_cases (Qred (q * inject_Z 255)) (inject_Z 255)) as C3.
  unfold inject_Z in *.
  destruct (0 # 1 ?= q)%Q; try discriminate;
    destruct (q ?= 1 # 1)%Q; try discriminate;
    destruct (0 # 1 ?= Qred (q * (255 # 1)))%Q;
    destruct (Qred (q * (255 # 1)) ?= 255 # 1)%Q;
    try reflexivity; exfalso; lra.
Qed.






(** * Further properties of the op *)

(** ** The order of the assertions *)

Lemma method_rejected (tri : Tensor -> Tensor) (image : Tensor)
  (method : string) (inverted : bool) (v : num) :
  valid_image image ->
  method <> "otsu"%string -> method <> "binary"%string ->
  threshold_ tri image method inverted v
  = Throw ("Method must be binary or otsu, but was " ++ method)%string.
Proof.
  unfold threshold_. intros (Hr & Hc & Hd) Ho Hb. rewrite Hr.
  assert (shape_is image 2 3 || shape_is image 2 1 = true) as ->
    by (destruct Hc as [-> | ->]; auto using orb_true_r).
  assert (DataType_eqb (dtype image) int32
          || DataType_eqb (dtype image) float32 = true) as ->
    by (destruct Hd as [-> | ->]; reflexivity).
  apply String.eqb_neq in Ho, Hb. now rewrite Ho, Hb.
Qed.



(** ** Splits with an empty class *)

Lemma nadd_nan_r (x : num) : nadd x NaN = NaN.
Proof. now destruct x. Qed.

Lemma nmul_nan_r (x : num) : nmul x NaN = NaN.
Proof. now destruct x. Qed.

Lemma nsub_nan_r (x : num) : nsub x NaN = NaN.
Proof. unfold nsub. apply nadd_nan_r. Qed.

Lemma zero_or_not (x : num) : x = Fin 0 \/ x <> Fin 0.
Proof.
  destruct x as [[n d]| | |]; try (right; discriminate).
  destruct (Z.eq_dec n 0) as [-> | Hn]; [|right; congruence].
  destruct (Pos.eq_dec d 1) as [-> | Hd]; [now left | right; congruence].
Qed.

Lemma zeros_or_populated (l : list num) :
  Forall (fun x => x = Fin 0) l
  \/ exists i, i < length l /\ nth i l (Fin 0) <> Fin 0.
Proof.
  induction l as [|x l [IH | (i & Hi & Hx)]].
  - now left.
  - destruct (zero_or_not x) as [-> | Hx].
    + left. now constructor.
    + right. exists 0. simpl. split; [lia | exact Hx].
  - right. exists (S i). simpl. split; [lia | exact Hx].
Qed.

Lemma nsum_zeros (xs : list num) :
  Forall (fun x => x = Fin 0) xs -> nsum xs = Fin 0.
Proof.
  unfold nsum. change (ofZ 0) with (Fin 0).
  induction 1 as [|x xs -> _ IH]; [reflexivity | exact IH].
Qed.

Lemma nmul_zero_finite (w : num) :
  is_finite w = true -> nmul (Fin 0) w = Fin 0.
Proof. destruct w as [[n d]| | |]; try discriminate. reflexivity. Qed.

Lemma weighted_zeros (xs ws : list num) :
  Forall (fun x => x = Fin 0) xs ->
  Forall (fun w => is_finite w = true) ws ->
  nsum (zipWith nmul xs ws) = Fin 0.
Proof.
  intros Hx Hw. apply nsum_zeros. revert ws Hw.
  induction Hx as [|x xs -> _ IH]; intros ws Hw; [constructor|].
  destruct Hw as [|w ws Hw Hws]; simpl; constructor.
  - now apply nmul_zero_finite.
  - now apply IH.
Qed.

Lemma indices_finite (offset n : nat) :
  Forall (fun w => is_finite w = true)
    (map (fun i => nadd (ofNat i) (ofNat offset)) (seq 0 n)).
Proof.
  apply Forall_forall. intros w Hw. apply in_map_iff in Hw as (i & <- & _).
  reflexivity.
Qed.

Lemma ofNat_finite (n : nat) :
  Forall (fun w => is_finite w = true) (map ofNat (seq 0 n)).
Proof.
  apply Forall_forall. intros w Hw. apply in_map_iff in Hw as (i & <- & _).
  reflexivity.
Qed.

(** A split whose first class holds only empty buckets has no mean for that
    class ([0/0]), and its variance is NaN. *)
Lemma variance_nan_first (h : list num) (total : num) (t : nat) :
  Forall (fun x => x = Fin 0) (firstn (t + 1) h) ->
  betweenClassVariance h total t = NaN.
Proof.
  intros H. unfold betweenClassVariance.
  rewrite (weighted_zeros _ _ H (ofNat_finite _)), (nsum_zeros _ H).
  change (ndiv (Fin 0) (Fin 0)) with NaN.
  change (nsub NaN ?y) with NaN. apply nmul_nan_r.
Qed.

Lemma variance_nan_second (h : list num) (total : num) (t : nat) :
  Forall (fun x => x = Fin 0) (skipn (t + 1) h) ->
  betweenClassVariance h total t = NaN.
Proof.
  intros H. unfold betweenClassVariance, weighted_sum.
  rewrite (weighted_zeros _ _ H (indices_finite _ _)), (nsum_zeros _ H).
  change (ndiv (Fin 0) (Fin 0)) with NaN.
  rewrite nsub_nan_r. apply nmul_nan_r.
Qed.

(** What the search returns on a vector [h] of [n] buckets, in terms of the
    variance of the specification. *)
Lemma otsu_vector_result (h : Tensor) (total : num) (n : nat) :
  shape h = [n] -> length (values h) = n ->
  exists t, values (otsu h total) = [t]
    /\ search_result (betweenClassVariance (values h) total) (n - 1) t.
Proof.
  intros Hs Hl.
  destruct (otsu_search_result h total) as (_ & t & Hv & Hres).
  exists t. split; [exact Hv|].
  replace (size h - 1) with (n - 1) in Hres
    by (unfold size; rewrite Hs; simpl; lia).
  apply search_result_ext with (var := variance_at h total); [|exact Hres].
  intros i Hi. apply variance_at_spec with (n := n); auto. lia.
Qed.

(** ** Images of a single intensity *)

Lemma otsu_single_bucket (h : Tensor) (total : num) (n j : nat) :
  shape h = [n] -> length (values h) = n ->
  (forall i, i <> j -> nth i (values h) (Fin 0) = Fin 0) ->
  values (otsu h total) = [ofZ (-1)].
Proof.
  intros Hs Hl Hz.
  destruct (otsu_vector_result h total n Hs Hl) as (t & Hv & Hres).
  rewrite Hv. f_equal.
  destruct Hres as [(Ht & _) | (k & Hk & _ & Hpos & _)]; [exact Ht|].
  exfalso. apply ngtb_not_nan_l in Hpos. apply Hpos.
  destruct (Nat.le_gt_cases j k) as [Hjk | Hjk].
  - apply variance_nan_second. apply Forall_nth. intros i d Hi.
    rewrite (nth_indep _ d (Fin 0) Hi), nth_skipn. apply Hz. lia.
  - apply variance_nan_first. apply Forall_nth. intros i d Hi.
    rewrite (nth_indep _ d (Fin 0) Hi), nth_firstn.
    rewrite length_firstn in Hi.
    destruct (Nat.ltb_spec i (k + 1)); [apply Hz; lia | reflexivity].
Qed.

Lemma all_equal_repeat (x : num) (l : list num) :
  (forall y, In y l -> y = x) -> l = repeat x (length l).
Proof.
  induction l as [|a l IH]; intros H; [reflexivity|].
  simpl. rewrite (H a (or_introl eq_refl)). f_equal.
  apply IH. intros y Hy. apply H. now right.
Qed.

Lemma histogram_of_shape (g : Tensor) :
  shape (histogram_of g) = [256] /\ length (values (histogram_of g)) = 256.
Proof.
  split; [reflexivity|].
  unfold histogram_of, bincount. cbn [values].
  now rewrite length_map, length_seq.
Qed.

Lemma histogram_of_nth (g : Tensor) (i : nat) :
  i < 256 ->
  nth i (values (histogram_of g)) (Fin 0)
  = ofNat (count_occ Z.eq_dec
             (map (fun x => toInt32 (ofZ (toInt32 (nround x)))) (values g))
             (Z.of_nat i)).
Proof.
  intros Hi. unfold histogram_of, bincount, cast, round. cbn [values].
  rewrite !map_map.
  set (f := fun k : nat => ofNat (count_occ Z.eq_dec _ (Z.of_nat k))).
  rewrite (nth_indep _ (Fin 0) (f 0))
    by (now rewrite length_map, length_seq).
  rewrite map_nth, seq_nth by exact Hi. reflexivity.
Qed.

(** The histogram of a grayscale whose values are all equal has at most one
    bucket that is not empty. *)
Lemma histogram_of_flat (g : Tensor) (x : num) :
  (forall y, In y (values g) -> y = x) ->
  exists j, forall i, i <> j ->
    nth i (values (histogram_of g)) (Fin 0) = Fin 0.
Proof.
  intros H.
  set (z := toInt32 (ofZ (toInt32 (nround x)))).
  exists (Z.to_nat z). intros i Hi.
  destruct (Nat.lt_ge_cases i 256) as [Hlt | Hge].
  - rewrite histogram_of_nth by exact Hlt.
    rewrite (all_equal_repeat x (values g) H), map_repeat.
    fold z. rewrite count_occ_repeat_neq; [reflexivity | lia].
  - apply nth_overflow.
    destruct (histogram_of_shape g) as (_ & ->). exact Hge.
Qed.



(** ** The element type of the image *)

Lemma grayscale_values_ext (image image' : Tensor) :
  shape image = shape image' -> values image = values image' ->
  values (grayscale_of image) = values (grayscale_of image').
Proof.
  intros Hs Hv.
  assert (E : shape_is image 2 3 = shape_is image' 2 3)
    by (unfold shape_is; now rewrite Hs).
  destruct (shape_is image 2 3) eqn:H3; symmetry in E.
  - now rewrite !grayscale_three_values, Hv.
  - now rewrite !grayscale_one_channel.
Qed.

Lemma histogram_of_ext (g g' : Tensor) :
  values g = values g' -> histogram_of g = histogram_of g'.
Proof.
  intros H. unfold histogram_of, bincount, cast, round. cbn [values].
  now rewrite H.
Qed.

(** X7.  Past validation the element type of the image plays no part: two valid
    images of the same shape and values, one [int32] and one [float32], are
    binarized alike. *)
Theorem dtype_irrelevant (tri : Tensor -> Tensor) (image image' : Tensor)
  (method : string) (inverted : bool) (v : num) :
  valid_image image -> valid_image image' ->
  shape image = shape image' -> values image = values image' ->
  threshold_ tri image method inverted v
  = threshold_ tri image' method inverted v.
Proof.
  intros Hvalid Hvalid' Hs Hv.
  pose proof (grayscale_values_ext image image' Hs Hv) as Hg.
  destruct (String.eqb_spec method "otsu") as [-> | Ho];
    [|destruct (String.eqb_spec method "binary") as [-> | Hb]].
  - destruct (accepted_call tri image "otsu" inverted v Hvalid
                (or_intror eq_refl))
      as (h & w & c & t & Hsh & _ & Ht & ->).
    destruct (accepted_call tri image' "otsu" inverted v Hvalid'
                (or_intror eq_refl))
      as (h' & w' & c' & t' & Hsh' & _ & Ht' & ->).
    rewrite Hs, Hsh' in Hsh. injection Hsh as -> -> ->.
    rewrite threshold_of_otsu in Ht, Ht'.
    rewrite (histogram_of_ext _ _ Hg) in Ht.
    unfold totalPixelsInImage in Ht. rewrite Hs in Ht.
    fold (totalPixelsInImage image') in Ht.
    rewrite Ht' in Ht. injection Ht as ->. now rewrite Hg.
  - destruct (accepted_call tri image "binary" inverted v Hvalid
                (or_introl eq_refl))
      as (h & w & c & t & Hsh & _ & Ht & ->).
    destruct (accepted_call tri image' "binary" inverted v Hvalid'
                (or_introl eq_refl))
      as (h' & w' & c' & t' & Hsh' & _ & Ht' & ->).
    rewrite Hs, Hsh' in Hsh. injection Hsh as -> -> ->.
    rewrite threshold_of_binary in Ht, Ht'. cbn [values] in Ht, Ht'.
    rewrite Ht' in Ht. injection Ht as ->. now rewrite Hg.
  - now rewrite !method_rejected.
Qed.

Lemma dtype_irrelevant_witness :
  threshold_ no_triangle image_2x2 "otsu" true (Fin (1 # 2))
  = threshold_ no_triangle image_2x2_int "otsu" true (Fin (1 # 2)).
Proof.
  apply (dtype_irrelevant no_triangle image_2x2 image_2x2_int "otsu" true
           (Fin (1 # 2))); try reflexivity.
  - split; [reflexivity | split; right; reflexivity].
  - split; [reflexivity | split; [right | left]; reflexivity].
Defined.

(** ** The binary threshold as threshValue varies *)

Lemma nmul_255_mono (v v' : num) :
  nleb v v' = true ->
  nleb (nmul v (ofZ 255)) (nmul v' (ofZ 255)) = true.
Proof.
  destruct v as [q| | |], v' as [q'| | |]; try discriminate;
    try reflexivity.
  unfold nleb, ncompare, nmul, ofZ, inject_Z. intros H.
  pose proof (Qred_correct (q * (255 # 1))) as E.
  pose proof (Qred_correct (q' * (255 # 1))) as E'.
  pose proof (Qcompare_cases q q') as C.
  pose proof (Qcompare_cases (Qred (q * (255 # 1))) (Qred (q' * (255 # 1))))
    as C'.
  destruct (q ?= q')%Q; try discriminate;
    destruct (Qred (q * (255 # 1)) ?= Qred (q' * (255 # 1)))%Q;
    try reflexivity; exfalso; lra.
Qed.

Lemma ngtb_lower (x t t' : num) :
  nleb t t' = true -> ngtb x t' = true -> ngtb x t = true.
Proof. num_order. Qed.

Lemma nleb_raise (x t t' : num) :
  nleb t t' = true -> nleb x t = true -> nleb x t' = true.
Proof. num_order. Qed.

Lemma pixel_of_255 (c : bool) : pixel_of c = ofZ 255 -> c = true.
Proof. destruct c; [reflexivity | discriminate]. Qed.

(** X8.  With method ['binary'] the result is monotone in threshValue: raising
    threshValue can only turn pixels of the result from 255 to 0, and
    pixels of the inverted result from 0 to 255. *)
Theorem binary_monotone (tri : Tensor -> Tensor) (image : Tensor)
  (v v' : num) :
  valid_image image ->
  nleb v v' = true ->
  exists out out' inv inv',
    threshold_ tri image "binary" false v = Ok out
    /\ threshold_ tri image "binary" false v' = Ok out'
    /\ threshold_ tri image "binary" true v = Ok inv
    /\ threshold_ tri image "binary" true v' = Ok inv'
    /\ (forall i, nth_error (values out') i = Some (ofZ 255) ->
                  nth_error (values out) i = Some (ofZ 255))
    /\ (forall i, nth_error (values inv) i = Some (ofZ 255) ->
                  nth_error (values inv') i = Some (ofZ 255)).
Proof.
  intros Hvalid Hle.
  pose proof (nmul_255_mono v v' Hle) as Ht.
  assert (Hcall : forall inverted w, exists h w0 : nat,
             threshold_ tri image "binary" inverted w
             = Ok {| shape := [h; w0; 1]; dtype := int32;
                     values := map (fun x => pixel_of
                                      (passes inverted (nmul w (ofZ 255)) x))
                                 (values (grayscale_of image)) |}).
  { intros inverted w.
    destruct (accepted_call tri image "binary" inverted w Hvalid
                (or_introl eq_refl))
      as (h & w0 & c & t & _ & _ & Hv & Hcall).
    rewrite threshold_of_binary in Hv. injection Hv as <-. eauto. }
  destruct (Hcall false v) as (? & ? & ->).
  destruct (Hcall false v') as (? & ? & ->).
  destruct (Hcall true v) as (? & ? & ->).
  destruct (Hcall true v') as (? & ? & ->).
  do 4 eexists. repeat (split; [reflexivity|]). cbn [values].
  split; intros i; rewrite !nth_error_map;
    destruct (nth_error (values (grayscale_of image)) i) as [px|];
    try discriminate; cbn [option_map passes]; intros H;
    injection H as H; apply pixel_of_255 in H.
  - now rewrite (ngtb_lower px _ _ Ht H).
  - now rewrite (nleb_raise px _ _ Ht H).
Qed.

Lemma binary_monotone_witness :
  exists out out' inv inv',
    threshold_ no_triangle image_2x2 "binary" false (Fin (1 # 2)) = Ok out
    /\ threshold_ no_triangle image_2x2 "binary" false (ofZ 2) = Ok out'
    /\ threshold_ no_triangle image_2x2 "binary" true (Fin (1 # 2)) = Ok inv
    /\ threshold_ no_triangle image_2x2 "binary" true (ofZ 2) = Ok inv'
    /\ (forall i, nth_error (values out') i = Some (ofZ 255) ->
                  nth_error (values out) i = Some (ofZ 255))
    /\ (forall i, nth_error (values inv) i = Some (ofZ 255) ->
                  nth_error (values inv') i = Some (ofZ 255)).
Proof.
  apply (binary_monotone no_triangle image_2x2 (Fin (1 # 2)) (ofZ 2)).
  - split; [reflexivity | split; right; reflexivity].
  - reflexivity.
Defined.

(** ** Binarizing a binary image *)

Lemma unit_threshold (v : num) :
  nleb (ofZ 0) v = true -> ngtb (ofZ 1) v = true ->
  ngtb (ofZ 255) (nmul v (ofZ 255)) = true
  /\ ngtb (ofZ 0) (nmul v (ofZ 255)) = false
  /\ nleb (ofZ 255) (nmul v (ofZ 255)) = false
  /\ nleb (ofZ 0) (nmul v (ofZ 255)) = true.
Proof.
  destruct v as [q| | |]; try discriminate.
  unfold ngtb, nleb, ncompare, nmul, ofZ, inject_Z. intros H0 H1.
  pose proof (Qred_correct (q * (255 # 1))) as E.
  pose proof (Qcompare_cases (0 # 1) q) as C0.
  pose proof (Qcompare_cases (1 # 1) q) as C1.
  pose proof (Qcompare_cases (255 # 1) (Qred (q * (255 # 1)))) as C2.
  pose proof (Qcompare_cases (0 # 1) (Qred (q * (255 # 1)))) as C3.
  destruct (0 # 1 ?= q)%Q; try discriminate;
    destruct (1 # 1 ?= q)%Q; try discriminate;
    destruct (255 # 1 ?= Qred (q * (255 # 1)))%Q;
    destruct (0 # 1 ?= Qred (q * (255 # 1)))%Q;
    repeat split; try reflexivity; exfalso; lra.
Qed.



(** ** Gray pixels of a 3-channel image *)

Lemma luma_gray (q : Q) :
  luma (Fin q) (Fin q) (Fin q) = Fin (Qred (q * (9999 # 10000))).
Proof.
  unfold luma, nadd, nmul. f_equal. apply Qred_complete.
  rewrite !Qred_correct. ring.
Qed.



(** ** threshValue at and beyond the ends of its range *)

Lemma luma_range (r g b : num) :
  within_0_255 r = true -> within_0_255 g = true -> within_0_255 b = true ->
  within_0_255 (luma r g b) = true.
Proof.
  destruct r as [r| | |], g as [g| | |], b as [b| | |]; try discriminate.
  unfold within_0_255, nleb, ncompare, luma, nadd, nmul, ofZ, inject_Z.
  intros Hr Hg Hb.
  apply andb_prop in Hr as [Hr0 Hr1]. apply andb_prop in Hg as [Hg0 Hg1].
  apply andb_prop in Hb as [Hb0 Hb1].
  set (l := Qred (Qred (Qred (r * (2989 # 10000))
                        + Qred (g * (5870 # 10000)))
                  + Qred (b * (1140 # 10000)))).
  assert (E : (l == r * (2989 # 10000) + g * (5870 # 10000)
                    + b * (1140 # 10000))%Q)
    by (unfold l; now rewrite !Qred_correct).
  pose proof (Qcompare_cases (0 # 1) r) as Cr0.
  pose proof (Qcompare_cases r (255 # 1)) as Cr1.
  pose proof (Qcompare_cases (0 # 1) g) as Cg0.
  pose proof (Qcompare_cases g (255 # 1)) as Cg1.
  pose proof (Qcompare_cases (0 # 1) b) as Cb0.
  pose proof (Qcompare_cases b (255 # 1)) as Cb1.
  pose proof (Qcompare_cases (0 # 1) l) as Cl0.
  pose proof (Qcompare_cases l (255 # 1)) as Cl1.
  assert (R : (0 <= r /\ r <= 255 # 1 /\ 0 <= g /\ g <= 255 # 1
               /\ 0 <= b /\ b <= 255 # 1)%Q).
  { destruct (0 # 1 ?= r)%Q; try discriminate;
      destruct (r ?= 255 # 1)%Q; try discriminate;
      destruct (0 # 1 ?= g)%Q; try discriminate;
      destruct (g ?= 255 # 1)%Q; try discriminate;
      destruct (0 # 1 ?= b)%Q; try discriminate;
      destruct (b ?= 255 # 1)%Q; try discriminate;
      repeat split; lra. }
  clear Cr0 Cr1 Cg0 Cg1 Cb0 Cb1 Hr0 Hr1 Hg0 Hg1 Hb0 Hb1.
  destruct (0 # 1 ?= l)%Q; destruct (l ?= 255 # 1)%Q;
    try reflexivity; exfalso; lra.
Qed.

Lemma luma_values_range (xs : list num) :
  Forall (fun x => within_0_255 x = true) xs ->
  Forall (fun x => within_0_255 x = true) (luma_values xs).
Proof.
  induction xs as [| | |r g b rest IH] using list_ind3; intros H;
    try (simpl; constructor).
  - inversion H as [|? ? Hr H1]; subst. inversion H1 as [|? ? Hg H2]; subst.
    inversion H2 as [|? ? Hb H3]; subst. now apply luma_range.
  - apply IH.
    inversion H as [|? ? Hr H1]; subst. inversion H1 as [|? ? Hg H2]; subst.
    now inversion H2.
Qed.

Lemma grayscale_range (image : Tensor) :
  Forall (fun x => within_0_255 x = true) (values image) ->
  Forall (fun x => within_0_255 x = true) (values (grayscale_of image)).
Proof.
  intros H. destruct (shape_is image 2 3) eqn:E.
  - rewrite grayscale_three_values by exact E.
    now apply luma_values_range.
  - now rewrite grayscale_one_channel.
Qed.

Lemma threshold_at_least_255 (v x : num) :
  nleb (ofZ 1) v = true -> within_0_255 x = true ->
  ngtb x (nmul v (ofZ 255)) = false /\ nleb x (nmul v (ofZ 255)) = true.
Proof.
  destruct x as [p| | |]; try discriminate.
  destruct v as [q| | |]; try discriminate; [|now split].
  unfold within_0_255, ngtb, nleb, ncompare, nmul, ofZ, inject_Z.
  intros H1 Hx. apply andb_prop in Hx as [_ Hx].
  pose proof (Qred_correct (q * (255 # 1))) as E.
  pose proof (Qcompare_cases (1 # 1) q) as C1.
  pose proof (Qcompare_cases p (255 # 1)) as C2.
  pose proof (Qcompare_cases p (Qred (q * (255 # 1)))) as C3.
  destruct (1 # 1 ?= q)%Q; try discriminate;
    destruct (p ?= 255 # 1)%Q; try discriminate;
    destruct (p ?= Qred (q * (255 # 1)))%Q;
    split; try reflexivity; exfalso; lra.
Qed.

Lemma threshold_below_0 (v x : num) :
  ngtb (ofZ 0) v = true -> within_0_255 x = true ->
  ngtb x (nmul v (ofZ 255)) = true /\ nleb x (nmul v (ofZ 255)) = false.
Proof.
  destruct x as [p| | |]; try discriminate.
  destruct v as [q| | |]; try discriminate; [|now split].
  unfold within_0_255, ngtb, nleb, ncompare, nmul, ofZ, inject_Z.
  intros H1 Hx. apply andb_prop in Hx as [Hx _].
  pose proof (Qred_correct (q * (255 # 1))) as E.
  pose proof (Qcompare_cases (0 # 1) q) as C1.
  pose proof (Qcompare_cases (0 # 1) p) as C2.
  pose proof (Qcompare_cases p (Qred (q * (255 # 1)))) as C3.
  destruct (0 # 1 ?= q)%Q; try discriminate;
    destruct (0 # 1 ?= p)%Q; try discriminate;
    destruct (p ?= Qred (q * (255 # 1)))%Q;
    split; try reflexivity; exfalso; lra.
Qed.



(** ** Moving the split across an empty bucket *)

Lemma nadd_canonical (u w : num) : nadd (nadd u w) (Fin 0) = nadd u w.
Proof.
  destruct u as [a| | |], w as [b| | |]; try reflexivity.
  unfold nadd. f_equal. apply Qred_complete.
  rewrite Qred_correct. ring.
Qed.

Lemma nsum_snoc (xs : list num) (x : num) :
  nsum (xs ++ [x]) = nadd (nsum xs) x.
Proof. unfold nsum. now rewrite fold_left_app. Qed.

Lemma nsum_snoc_zero (xs : list num) :
  xs <> [] -> nsum (xs ++ [Fin 0]) = nsum xs.
Proof.
  intros H. destruct (exists_last H) as (ys & y & ->).
  rewrite !nsum_snoc. apply nadd_canonical.
Qed.

Lemma nsum_cons_zero (xs : list num) : nsum (Fin 0 :: xs) = nsum xs.
Proof. reflexivity. Qed.

Lemma firstn_succ (l : list num) (m : nat) (d : num) :
  m < length l -> firstn (S m) l = firstn m l ++ [nth m l d].
Proof.
  revert m. induction l as [|a l IH]; intros m Hm; simpl in Hm; [lia|].
  destruct m as [|m]; [reflexivity|].
  cbn [nth]. rewrite (firstn_cons (S m)), (firstn_cons m).
  rewrite (IH m) by lia. reflexivity.
Qed.

Lemma skipn_succ (l : list num) (m : nat) (d : num) :
  m < length l -> skipn m l = nth m l d :: skipn (S m) l.
Proof.
  revert m. induction l as [|a l IH]; intros m Hm; simpl in Hm; [lia|].
  destruct m as [|m]; [reflexivity|].
  cbn [nth]. rewrite (skipn_cons m), (skipn_cons (S m)).
  apply IH. lia.
Qed.

Lemma zipWith_snoc (f : num -> num -> num) (xs ys : list num) (x y : num) :
  length xs = length ys ->
  zipWith f (xs ++ [x]) (ys ++ [y]) = zipWith f xs ys ++ [f x y].
Proof.
  revert ys. induction xs as [|a xs IH]; intros [|b ys] H;
    simpl in *; try discriminate; [reflexivity|].
  now rewrite IH by congruence.
Qed.

Lemma offset_shift (i offset : nat) :
  nadd (ofNat (S i)) (ofNat offset) = nadd (ofNat i) (ofNat (S offset)).
Proof.
  unfold nadd, ofNat, ofZ. f_equal. apply Qred_complete.
  unfold Qeq, Qplus, inject_Z. cbn [Qnum Qden]. lia.
Qed.

Lemma weighted_sum_cons_zero (offset : nat) (xs : list num) :
  weighted_sum offset (Fin 0 :: xs) = weighted_sum (S offset) xs.
Proof.
  unfold weighted_sum. cbn [length seq map zipWith].
  change (nmul (Fin 0) (nadd (ofNat 0) (ofNat offset))) with (Fin 0).
  rewrite nsum_cons_zero, <- seq_shift, map_map.
  f_equal. f_equal. apply map_ext. intros i. apply offset_shift.
Qed.

(** Moving the split from [t] to [t + 1] across an empty bucket changes
    neither class sum nor either mean: the variance is the same number. *)
Lemma variance_across_empty (h : list num) (total : num) (t : nat) :
  S t < length h -> nth (S t) h (Fin 0) = Fin 0 ->
  betweenClassVariance h total (S t) = betweenClassVariance h total t.
Proof.
  intros Hlen Hz. unfold betweenClassVariance.
  replace (S t + 1) with (S (t + 1)) by lia.
  replace (t + 1) with (S t) by lia.
  rewrite (firstn_succ h (S t) (Fin 0) Hlen), Hz.
  rewrite (skipn_succ h (S t) (Fin 0) Hlen), Hz.
  set (cf := firstn (S t) h). set (cs := skipn (S (S t)) h).
  assert (Hcf : length cf = S t)
    by (unfold cf; rewrite length_firstn; lia).
  assert (Hne : cf <> []) by (intros E; now rewrite E in Hcf).
  rewrite length_app, Nat.add_1_r, seq_S, map_app. cbn [map Nat.add].
  rewrite zipWith_snoc by (now rewrite length_map, length_seq).
  change (nmul (Fin 0) (ofNat (length cf))) with (Fin 0).
  rewrite (nsum_snoc_zero cf Hne).
  rewrite nsum_snoc_zero
    by (destruct cf; [congruence | discriminate]).
  now rewrite nsum_cons_zero, weighted_sum_cons_zero.
Qed.

Lemma nleb_refl (x : num) : x <> NaN -> nleb x x = true.
Proof.
  intros H. rewrite nleb_negb_ngtb by exact H. now rewrite ngtb_irrefl.
Qed.

Lemma otsu_index_facts (h : Tensor) (total : num) (n k : nat) :
  shape h = [n] -> length (values h) = n ->
  values (otsu h total) = [ofNat k] ->
  k < n - 1
  /\ betweenClassVariance (values h) total k <> NaN
  /\ (forall i, i < k ->
        nleb (betweenClassVariance (values h) total k)
             (betweenClassVariance (values h) total i) = false).
Proof.
  intros Hs Hl Hk.
  destruct (otsu_vector_result h total n Hs Hl) as (t & Hv & Hres).
  rewrite Hv in Hk. injection Hk as ->.
  destruct Hres as [(Ht & _) | (k' & Hk' & Ht & Hpos & _ & Hfirst)].
  - symmetry in Ht. now apply ofNat_not_minus_one in Ht.
  - apply ofNat_inj in Ht. subst k'. repeat split; auto.
    now apply ngtb_not_nan_l with (y := ofZ 0).
Qed.

Lemma otsu_index_not_empty (h : Tensor) (total : num) (n k : nat) :
  shape h = [n] -> length (values h) = n ->
  values (otsu h total) = [ofNat k] ->
  nth k (values h) (Fin 0) <> Fin 0.
Proof.
  intros Hs Hl Hk.
  destruct (otsu_index_facts h total n k Hs Hl Hk) as (Hkn & Hnan & Hfirst).
  intros Hz. destruct k as [|k].
  - apply Hnan, variance_nan_first. change (0 + 1) with 1.
    rewrite (firstn_succ (values h) 0 (Fin 0)) by lia.
    rewrite Hz. now constructor.
  - specialize (Hfirst k (Nat.lt_succ_diag_r k)).
    rewrite variance_across_empty in Hfirst by (auto; lia).
    rewrite nleb_refl in Hfirst; [discriminate|].
    now rewrite <- (variance_across_empty (values h) total k)
      by (auto; lia).
Qed.

Lemma otsu_index_not_last (h : Tensor) (total : num) (n k : nat) :
  shape h = [n] -> length (values h) = n ->
  values (otsu h total) = [ofNat k] ->
  exists j, k < j < n /\ nth j (values h) (Fin 0) <> Fin 0.
Proof.
  intros Hs Hl Hk.
  destruct (otsu_index_facts h total n k Hs Hl Hk) as (Hkn & Hnan & _).
  destruct (zeros_or_populated (skipn (k + 1) (values h)))
    as [Hz | (i & Hi & Hx)].
  - now apply variance_nan_second with (total := total) in Hz.
  - rewrite length_skipn in Hi. rewrite nth_skipn in Hx.
    exists (k + 1 + i). split; [lia | exact Hx].
Qed.

(** X2.  The search returns the index of a bucket that is not empty, and some
    bucket above it is not empty either: the threshold is an intensity that
    occurs, and it is not the brightest one.  (A split whose second class is
    empty has a NaN variance; a split after an empty bucket ties with the
    split before it, which the strict [>] keeps.) *)
Theorem otsu_separates (h : Tensor) (total : num) (n k : nat) :
  shape h = [n] -> length (values h) = n ->
  values (otsu h total) = [ofNat k] ->
  k + 1 < n
  /\ nth k (values h) (Fin 0) <> Fin 0
  /\ (exists j, k < j < n /\ nth j (values h) (Fin 0) <> Fin 0).
Proof.
  intros Hs Hl Hk.
  destruct (otsu_index_facts h total n k Hs Hl Hk) as (Hkn & _).
  split; [lia|]. split.
  - now apply (otsu_index_not_empty h total n k).
  - now apply (otsu_index_not_last h total n k).
Qed.

Lemma otsu_separates_witness :
  10 + 1 < 256
  /\ nth 10 (values (histogram_of image_2x2)) (Fin 0) <> Fin 0
  /\ (exists j, 10 < j < 256
        /\ nth j (values (histogram_of image_2x2)) (Fin 0) <> Fin 0).
Proof.
  apply (otsu_separates (histogram_of image_2x2) (ofZ 4) 256 10);
    vm_compute; reflexivity.
Defined.

(** ** Splits between two occupied buckets *)

Lemma is_count_fin (x : num) :
  is_count x -> exists q, x = Fin q /\ (0 <= q)%Q.
Proof.
  intros (Hf & Hn). destruct x as [q| | |]; try discriminate.
  exists q. split; [reflexivity|].
  unfold nleb, ncompare, ofZ, inject_Z in Hn.
  pose proof (Qcompare_cases (0 # 1) q) as C.
  destruct (0 # 1 ?= q)%Q; try discriminate; lra.
Qed.

Lemma Forall_firstn_num (P : num -> Prop) (n : nat) (l : list num) :
  Forall P l -> Forall P (firstn n l).
Proof.
  intros H. revert n. induction H as [|x l Hx _ IH]; intros [|n]; simpl;
    constructor; auto.
Qed.

Lemma Forall_skipn_num (P : num -> Prop) (n : nat) (l : list num) :
  Forall P l -> Forall P (skipn n l).
Proof.
  intros H. revert n. induction H as [|x l Hx Hl IH]; intros [|n]; simpl;
    auto.
Qed.

Lemma fold_nadd_counts (xs : list num) :
  Forall is_count xs ->
  forall a, exists s,
    fold_left nadd xs (Fin a) = Fin s /\ (s == a + qsum xs)%Q.
Proof.
  induction 1 as [|x xs Hx _ IH]; intros a.
  - exists a. split; [reflexivity | simpl; ring].
  - destruct (is_count_fin x Hx) as (q & -> & _).
    destruct (IH (Qred (a + q))) as (s & Hs & E).
    exists s. split; [exact Hs|].
    rewrite E, Qred_correct. simpl. ring.
Qed.

Lemma nsum_counts (xs : list num) :
  Forall is_count xs -> exists s, nsum xs = Fin s /\ (s == qsum xs)%Q.
Proof.
  intros H. destruct (fold_nadd_counts xs H 0) as (s & Hs & E).
  exists s. split; [exact Hs | rewrite E; ring].
Qed.

Lemma fold_weighted_counts (W : nat -> num) (w : nat -> Q) (xs : list num) :
  (forall i, W i = Fin (w i)) ->
  Forall is_count xs ->
  forall s a, exists r,
    fold_left nadd (zipWith nmul xs (map W (seq s (length xs)))) (Fin a)
    = Fin r
    /\ (r == a + qweighted w s xs)%Q.
Proof.
  intros HW. induction 1 as [|x xs Hx _ IH]; intros s a.
  - exists a. split; [reflexivity | simpl; ring].
  - destruct (is_count_fin x Hx) as (q & -> & _).
    cbn [length seq map zipWith fold_left]. rewrite HW.
    destruct (IH (S s) (Qred (a + Qred (q * w s)))) as (r & Hr & E).
    exists r. split; [exact Hr|].
    rewrite E, !Qred_correct. simpl. ring.
Qed.

Lemma qsum_nonneg (xs : list num) : Forall is_count xs -> (0 <= qsum xs)%Q.
Proof.
  induction 1 as [|x xs Hx _ IH]; simpl; [lra|].
  destruct (is_count_fin x Hx) as (q & -> & Hq). simpl. lra.
Qed.

Lemma qsum_pos (xs : list num) (i : nat) :
  Forall is_count xs ->
  ngtb (nth i xs (Fin 0)) (Fin 0) = true -> (0 < qsum xs)%Q.
Proof.
  intros H. revert i. induction H as [|x xs Hx Hxs IH]; intros i Hi.
  - destruct i; discriminate Hi.
  - pose proof (qsum_nonneg xs Hxs).
    destruct (is_count_fin x Hx) as (q & -> & Hq). simpl.
    destruct i as [|i].
    + simpl in Hi. unfold ngtb, ncompare in Hi.
      pose proof (Qcompare_cases q 0) as C.
      destruct (q ?= 0)%Q; try discriminate. lra.
    + specialize (IH i Hi). lra.
Qed.

Lemma qweighted_le (w : nat -> Q) (hi : Q) (xs : list num) :
  Forall is_count xs ->
  forall s, (forall i, s <= i < s + length xs -> (w i <= hi)%Q) ->
  (qweighted w s xs <= hi * qsum xs)%Q.
Proof.
  induction 1 as [|x xs Hx _ IH]; intros s Hw; simpl; [lra|].
  destruct (is_count_fin x Hx) as (q & -> & Hq). simpl.
  assert (H1 : (w s <= hi)%Q) by (apply Hw; simpl; lia).
  assert (H2 : (qweighted w (S s) xs <= hi * qsum xs)%Q)
    by (apply IH; intros i Hi; apply Hw; simpl; lia).
  assert (H3 : (q * w s <= q * hi)%Q) by nra.
  lra.
Qed.

Lemma qweighted_ge (w : nat -> Q) (lo : Q) (xs : list num) :
  Forall is_count xs ->
  forall s, (forall i, s <= i < s + length xs -> (lo <= w i)%Q) ->
  (lo * qsum xs <= qweighted w s xs)%Q.
Proof.
  induction 1 as [|x xs Hx _ IH]; intros s Hw; simpl; [lra|].
  destruct (is_count_fin x Hx) as (q & -> & Hq). simpl.
  assert (H1 : (lo <= w s)%Q) by (apply Hw; simpl; lia).
  assert (H2 : (lo * qsum xs <= qweighted w (S s) xs)%Q)
    by (apply IH; intros i Hi; apply Hw; simpl; lia).
  assert (H3 : (q * lo <= q * w s)%Q) by nra.
  lra.
Qed.

Lemma ndiv_by_positive (a b : Q) :
  (0 < b)%Q -> ndiv (Fin a) (Fin b) = Fin (Qred (a / b)).
Proof.
  intros Hb. unfold ndiv, Qsign.
  pose proof (Qcompare_cases b 0) as C.
  destruct (b ?= 0)%Q; try reflexivity. exfalso; lra.
Qed.

Lemma inject_Z_succ (t : nat) :
  (inject_Z (Z.of_nat (t + 1)) == inject_Z (Z.of_nat t) + 1)%Q.
Proof. unfold Qeq, Qplus, inject_Z. cbn [Qnum Qden]. lia. Qed.

(** A split with an occupied bucket on each side has a variance above 0,
    for counts that are finite and not negative and a positive total: the
    mean of the first class is at most [t] and that of the second at least
    [t + 1]. *)
Lemma variance_positive (h : list num) (T : Q) (t i j : nat) :
  Forall is_count h -> (0 < T)%Q ->
  i <= t -> ngtb (nth i h (Fin 0)) (Fin 0) = true ->
  t < j -> ngtb (nth j h (Fin 0)) (Fin 0) = true ->
  ngtb (betweenClassVariance h (Fin T) t) (Fin 0) = true.
Proof.
  intros Hh HT Hi Hpi Hj Hpj.
  assert (Hjlen : j < length h).
  { destruct (Nat.lt_ge_cases j (length h)) as [H | H]; [exact H|].
    rewrite nth_overflow in Hpj by exact H. discriminate. }
  unfold betweenClassVariance, weighted_sum.
  set (cf := firstn (t + 1) h). set (cs := skipn (t + 1) h).
  assert (Hcf : Forall is_count cf) by now apply Forall_firstn_num.
  assert (Hcs : Forall is_count cs) by now apply Forall_skipn_num.
  assert (Lcf : length cf = t + 1)
    by (unfold cf; rewrite length_firstn; lia).
  destruct (nsum_counts cf Hcf) as (s1 & -> & E1).
  destruct (nsum_counts cs Hcs) as (s2 & -> & E2).
  destruct (fold_weighted_counts ofNat
              (fun k => inject_Z (Z.of_nat k)) cf (fun k => eq_refl) Hcf 0 0)
    as (r1 & R1 & F1).
  destruct (fold_weighted_counts
              (fun k => nadd (ofNat k) (ofNat (length cf)))
              (fun k => Qred (inject_Z (Z.of_nat k)
                              + inject_Z (Z.of_nat (length cf))))
              cs (fun k => eq_refl) Hcs 0 0)
    as (r2 & R2 & F2).
  unfold nsum. change (ofZ 0) with (Fin 0). rewrite R1, R2.
  assert (P1 : (0 < qsum cf)%Q).
  { apply qsum_pos with (i := i); [exact Hcf|].
    unfold cf. rewrite nth_firstn.
    destruct (Nat.ltb_spec i (t + 1)); [exact Hpi | lia]. }
  assert (P2 : (0 < qsum cs)%Q).
  { apply qsum_pos with (i := j - (t + 1)); [exact Hcs|].
    unfold cs. rewrite nth_skipn.
    now replace (t + 1 + (j - (t + 1))) with j by lia. }
  assert (B1 : (qweighted (fun k => inject_Z (Z.of_nat k)) 0 cf
                <= inject_Z (Z.of_nat t) * qsum cf)%Q).
  { apply qweighted_le; [exact Hcf|]. intros k Hk.
    rewrite <- Zle_Qle. lia. }
  assert (B2 : (inject_Z (Z.of_nat (t + 1)) * qsum cs
                <= qweighted
                     (fun k => Qred (inject_Z (Z.of_nat k)
                                     + inject_Z (Z.of_nat (length cf))))
                     0 cs)%Q).
  { apply qweighted_ge; [exact Hcs|]. intros k Hk.
    rewrite Qred_correct, Lcf.
    assert ((0 <= inject_Z (Z.of_nat k))%Q)
      by (change 0%Q with (inject_Z 0); rewrite <- Zle_Qle; lia).
    lra. }
  pose proof (inject_Z_succ t) as Hsucc.
  rewrite <- E1 in B1, P1. rewrite <- E2 in B2, P2.
  rename P1 into S1. rename P2 into S2.
  rewrite !ndiv_by_positive by assumption.
  unfold nsub, nneg, nadd, nmul, ngtb, ncompare.
  set (X := Qred _).
  assert (HX : (0 < X)%Q).
  { unfold X. clear X. rewrite !Qred_correct.
    assert (A : (0 < s1 / T)%Q) by (apply Qlt_shift_div_l; lra).
    assert (B : (0 < s2 / T)%Q) by (apply Qlt_shift_div_l; lra).
    assert (M1 : (r1 / s1 <= inject_Z (Z.of_nat t))%Q)
      by (apply Qle_shift_div_r; lra).
    assert (M2 : (inject_Z (Z.of_nat (t + 1)) <= r2 / s2)%Q)
      by (apply Qle_shift_div_l; lra).
    generalize dependent (r1 / s1)%Q. generalize dependent (r2 / s2)%Q.
    generalize dependent (s1 / T)%Q. generalize dependent (s2 / T)%Q.
    intros b B a A m2 M2 m1 M1.
    assert (D : (m1 + - m2 <= -1)%Q) by lra.
    generalize dependent (m1 + - m2)%Q. intros d D.
    assert (0 < a * b)%Q by nra. assert (1 <= d * d)%Q by nra. nra. }
  pose proof (Qcompare_cases X 0) as C.
  destruct (X ?= 0)%Q; try reflexivity; exfalso; lra.
Qed.

Lemma ofNat_is_count (c : nat) : is_count (ofNat c).
Proof.
  split; [reflexivity|]. unfold nleb, ncompare, ofNat, ofZ.
  assert (H : (inject_Z 0 <= inject_Z (Z.of_nat c))%Q)
    by (rewrite <- Zle_Qle; lia).
  pose proof (Qcompare_cases (inject_Z 0) (inject_Z (Z.of_nat c))) as C.
  destruct (inject_Z 0 ?= inject_Z (Z.of_nat c))%Q;
    try reflexivity; exfalso; lra.
Qed.

Lemma ofNat_positive (c : nat) : 0 < c -> ngtb (ofNat c) (Fin 0) = true.
Proof.
  intros Hc. unfold ngtb, ncompare, ofNat, ofZ.
  assert (H : (inject_Z 0 < inject_Z (Z.of_nat c))%Q)
    by (rewrite <- Zlt_Qlt; lia).
  pose proof (Qcompare_cases (inject_Z (Z.of_nat c)) 0) as C.
  change (inject_Z 0) with 0%Q in H.
  destruct (inject_Z (Z.of_nat c) ?= 0)%Q;
    try reflexivity; exfalso; lra.
Qed.

Lemma histogram_of_counts (g : Tensor) :
  Forall is_count (values (histogram_of g)).
Proof.
  apply Forall_forall. intros x Hx.
  unfold histogram_of, bincount in Hx. cbn [values] in Hx.
  apply in_map_iff in Hx as (i & <- & _). apply ofNat_is_count.
Qed.

Lemma otsu_index_exists (h : Tensor) (T : Q) (n a b : nat) :
  shape h = [n] -> length (values h) = n ->
  Forall is_count (values h) -> (0 < T)%Q ->
  a < b ->
  ngtb (nth a (values h) (Fin 0)) (Fin 0) = true ->
  ngtb (nth b (values h) (Fin 0)) (Fin 0) = true ->
  exists k, values (otsu h (Fin T)) = [ofNat k].
Proof.
  intros Hs Hl Hc HT Hab Ha Hb.
  assert (Hbn : b < n).
  { destruct (Nat.lt_ge_cases b n) as [H | H]; [exact H|].
    rewrite nth_overflow in Hb by lia. discriminate. }
  destruct (otsu_vector_result h (Fin T) n Hs Hl) as (t & Hv & Hres).
  destruct Hres as [(_ & Hnone) | (k & _ & -> & _)]; [|now exists k].
  specialize (Hnone a ltac:(lia)). change (ofZ 0) with (Fin 0) in Hnone.
  rewrite (variance_positive (values h) T a a b) in Hnone; auto.
  discriminate.
Qed.

(** X4.  On a histogram of counts (finite, not negative) with a positive total,
    the search returns a bucket index, not -1, as soon as two buckets are
    occupied; that index has the properties of an index the search
    returns. *)
Theorem otsu_finds_split (h : Tensor) (T : Q) (n a b : nat) :
  shape h = [n] -> length (values h) = n ->
  Forall is_count (values h) -> (0 < T)%Q ->
  a < b ->
  ngtb (nth a (values h) (Fin 0)) (Fin 0) = true ->
  ngtb (nth b (values h) (Fin 0)) (Fin 0) = true ->
  exists k,
    values (otsu h (Fin T)) = [ofNat k]
    /\ k + 1 < n
    /\ nth k (values h) (Fin 0) <> Fin 0
    /\ ngtb (betweenClassVariance (values h) (Fin T) k) (Fin 0) = true.
Proof.
  intros Hs Hl Hc HT Hab Ha Hb.
  destruct (otsu_index_exists h T n a b Hs Hl Hc HT Hab Ha Hb) as (k & Hk).
  exists k. split; [exact Hk|].
  destruct (otsu_index_facts h (Fin T) n k Hs Hl Hk) as (Hkn & _).
  pose proof (otsu_index_not_empty h (Fin T) n k Hs Hl Hk) as Hocc.
  repeat split; auto; try lia.
  destruct (otsu_vector_result h (Fin T) n Hs Hl) as (t & Hv & Hres).
  rewrite Hv in Hk. injection Hk as ->.
  destruct Hres as [(Ht & _) | (k' & _ & Ht & Hpos & _)].
  - symmetry in Ht. now apply ofNat_not_minus_one in Ht.
  - apply ofNat_inj in Ht. now subst k'.
Qed.

Lemma otsu_finds_split_witness :
  exists k,
    values (otsu (histogram_of image_2x2) (Fin 4)) = [ofNat k]
    /\ k + 1 < 256
    /\ nth k (values (histogram_of image_2x2)) (Fin 0) <> Fin 0
    /\ ngtb (betweenClassVariance (values (histogram_of image_2x2))
               (Fin 4) k) (Fin 0) = true.
Proof.
  apply (otsu_finds_split (histogram_of image_2x2) 4 256 5 10);
    try reflexivity; try lia.
  apply histogram_of_counts.
Defined.

(** With exactly two occupied buckets [a < b] the search returns [a]. *)
Lemma otsu_two_buckets (h : Tensor) (T : Q) (n a b : nat) :
  shape h = [n] -> length (values h) = n ->
  Forall is_count (values h) -> (0 < T)%Q ->
  a < b ->
  ngtb (nth a (values h) (Fin 0)) (Fin 0) = true ->
  ngtb (nth b (values h) (Fin 0)) (Fin 0) = true ->
  (forall i, i <> a -> i <> b -> nth i (values h) (Fin 0) = Fin 0) ->
  values (otsu h (Fin T)) = [ofNat a].
Proof.
  intros Hs Hl Hc HT Hab Ha Hb Hothers.
  destruct (otsu_index_exists h T n a b Hs Hl Hc HT Hab Ha Hb) as (k & Hk).
  rewrite Hk. do 2 f_equal.
  pose proof (otsu_index_not_empty h (Fin T) n k Hs Hl Hk) as Hocc.
  destruct (otsu_index_not_last h (Fin T) n k Hs Hl Hk) as (j & Hj & Hjocc).
  destruct (Nat.eq_dec k a) as [E | Hka]; [exact E|].
  destruct (Nat.eq_dec k b) as [-> | Hkb].
  - exfalso. apply Hjocc, Hothers; lia.
  - exfalso. now apply Hocc, Hothers.
Qed.

(** ** Images of two intensities *)

Lemma round_integer (z : Z) : round_half_even (inject_Z z) = z.
Proof.
  unfold round_half_even. rewrite Qfloor_Z.
  assert (H : (inject_Z z - inject_Z z ?= 1 # 2)%Q = Lt)
    by (apply Qlt_alt; unfold Qminus; rewrite Qplus_opp_r; reflexivity).
  now rewrite H.
Qed.

Lemma bucket_of_intensity (a : nat) :
  a <= 255 -> toInt32 (ofZ (toInt32 (nround (ofNat a)))) = Z.of_nat a.
Proof.
  intros Ha.
  change (nround (ofNat a))
    with (ofZ (round_half_even (inject_Z (Z.of_nat a)))).
  rewrite round_integer.
  assert (H : toInt32 (ofZ (Z.of_nat a)) = Z.of_nat a).
  { unfold toInt32, ofZ, inject_Z, wrap32. cbn [Qnum Qden].
    rewrite Z.quot_1_r.
    rewrite Z.mod_small by (change (2 ^ 31)%Z with 2147483648%Z;
                            change (2 ^ 32)%Z with 4294967296%Z; lia).
    lia. }
  now rewrite H, H.
Qed.

Lemma ofNat_lt (a b : nat) :
  a < b ->
  ngtb (ofNat b) (ofNat a) = true /\ nleb (ofNat b) (ofNat a) = false.
Proof.
  intros Hab. unfold ngtb, nleb, ncompare, ofNat, ofZ.
  assert (H : (inject_Z (Z.of_nat a) < inject_Z (Z.of_nat b))%Q)
    by (rewrite <- Zlt_Qlt; lia).
  pose proof (Qcompare_cases (inject_Z (Z.of_nat b)) (inject_Z (Z.of_nat a)))
    as C.
  destruct (inject_Z (Z.of_nat b) ?= inject_Z (Z.of_nat a))%Q;
    split; try reflexivity; exfalso; lra.
Qed.

(** The histogram of a grayscale whose values are the intensities [a] and
    [b], both present: the two buckets are occupied, the others empty. *)
Lemma histogram_two_tone (g : Tensor) (a b : nat) :
  a <= 255 -> b <= 255 ->
  (forall x, In x (values g) -> x = ofNat a \/ x = ofNat b) ->
  In (ofNat a) (values g) -> In (ofNat b) (values g) ->
  ngtb (nth a (values (histogram_of g)) (Fin 0)) (Fin 0) = true
  /\ ngtb (nth b (values (histogram_of g)) (Fin 0)) (Fin 0) = true
  /\ (forall i, i <> a -> i <> b ->
        nth i (values (histogram_of g)) (Fin 0) = Fin 0).
Proof.
  intros Ha Hb Hall Hina Hinb.
  set (conv := fun x => toInt32 (ofZ (toInt32 (nround x)))).
  assert (Hocc : forall c, c <= 255 -> In (ofNat c) (values g) ->
            ngtb (nth c (values (histogram_of g)) (Fin 0)) (Fin 0) = true).
  { intros c Hc Hin. rewrite histogram_of_nth by lia.
    apply ofNat_positive. apply count_occ_In.
    rewrite <- (bucket_of_intensity c Hc).
    now apply (in_map conv). }
  split; [now apply Hocc|]. split; [now apply Hocc|].
  intros i Hia Hib. destruct (Nat.lt_ge_cases i 256) as [Hlt | Hge].
  - rewrite histogram_of_nth by exact Hlt.
    rewrite (proj1 (count_occ_not_In Z.eq_dec _ _)); [reflexivity|].
    intros Hin. apply in_map_iff in Hin as (x & Hx & Hxin).
    destruct (Hall x Hxin) as [-> | ->];
      rewrite bucket_of_intensity in Hx by assumption; lia.
  - apply nth_overflow.
    destruct (histogram_of_shape g) as (_ & ->). exact Hge.
Qed.

(** X5.  On a valid 1-channel image whose pixels take exactly two intensities
    [a < b] of [0 .. 255], the ['otsu'] method takes [a] as its threshold:
    the pixels of intensity [b] become 255 and those of intensity [a]
    become 0, and the other way round when inverted. *)
Theorem otsu_two_tone (tri : Tensor -> Tensor) (image : Tensor)
  (h w a b : nat) (inverted : bool) (v : num) :
  shape image = [h; w; 1] ->
  dtype image = int32 \/ dtype image = float32 ->
  length (values image) = h * w ->
  a < b -> b <= 255 ->
  (forall x, In x (values image) -> x = ofNat a \/ x = ofNat b) ->
  In (ofNat a) (values image) -> In (ofNat b) (values image) ->
  values (threshold_of tri image "otsu" v) = [ofNat a]
  /\ exists out,
       threshold_ tri image "otsu" inverted v = Ok out
       /\ forall i,
            (nth_error (values image) i = Some (ofNat a) ->
             nth_error (values out) i = Some (pixel_of inverted))
            /\ (nth_error (values image) i = Some (ofNat b) ->
                nth_error (values out) i = Some (pixel_of (negb inverted))).
Proof.
  intros Hs Hd Hlen Hab Hb Hall Hina Hinb.
  assert (Hvalid : valid_image image).
  { split; [unfold rank; now rewrite Hs|]. split; [|exact Hd].
    right. unfold shape_is. now rewrite Hs. }
  assert (Hgray : grayscale_of image = image).
  { apply grayscale_one_channel. unfold shape_is. now rewrite Hs. }
  assert (Hpix : 0 < h * w).
  { rewrite <- Hlen. destruct (values image); [contradiction | simpl; lia]. }
  assert (Ht : values (threshold_of tri image "otsu" v) = [ofNat a]).
  { rewrite threshold_of_otsu, Hgray.
    destruct (histogram_of_shape image) as (Hhs & Hhl).
    destruct (histogram_two_tone image a b ltac:(lia) Hb Hall Hina Hinb)
      as (Hoa & Hob & Hothers).
    unfold totalPixelsInImage. rewrite Hs. cbn [nth_error].
    apply otsu_two_buckets with (n := 256) (b := b); auto.
    - apply histogram_of_counts.
    - change 0%Q with (inject_Z 0). rewrite <- Zlt_Qlt. lia. }
  split; [exact Ht|].
  destruct (accepted_call tri image "otsu" inverted v Hvalid
              (or_intror eq_refl))
    as (h' & w' & c' & t & _ & _ & Ht' & ->).
  rewrite Ht in Ht'. injection Ht' as <-.
  eexists. split; [reflexivity|]. cbn [values]. rewrite Hgray.
  destruct (ofNat_lt a b Hab) as (G & L).
  intros i. split; intros Hi; rewrite nth_error_map, Hi;
    cbn [option_map]; do 2 f_equal; unfold passes; destruct inverted.
  - apply nleb_refl. discriminate.
  - apply ngtb_irrefl.
  - exact L.
  - exact G.
Qed.

Lemma otsu_two_tone_witness :
  values (threshold_of no_triangle image_two_tone "otsu" (Fin (1 # 2)))
  = [ofNat 10]
  /\ exists out,
       threshold_ no_triangle image_two_tone "otsu" false (Fin (1 # 2))
       = Ok out
       /\ forall i,
            (nth_error (values image_two_tone) i = Some (ofNat 10) ->
             nth_error (values out) i = Some (pixel_of false))
            /\ (nth_error (values image_two_tone) i = Some (ofNat 200) ->
                nth_error (values out) i = Some (pixel_of (negb false))).
Proof.
  apply (otsu_two_tone no_triangle image_two_tone 2 2 10 200 false
           (Fin (1 # 2))); try reflexivity; try lia.
  - left; reflexivity.
  - simpl. intros x Hx. decompose [or] Hx; subst; auto. contradiction.
  - simpl. auto.
  - simpl. auto.
Defined.

(** ** Images of several intensities *)

Lemma histogram_bucket_occupied (g : Tensor) (c : nat) :
  (forall x, In x (values g) -> exists a, a <= 255 /\ x = ofNat a) ->
  nth c (values (histogram_of g)) (Fin 0) <> Fin 0 ->
  In (ofNat c) (values g).
Proof.
  intros Hall Hocc.
  destruct (Nat.lt_ge_cases c 256) as [Hlt | Hge].
  - rewrite histogram_of_nth in Hocc by exact Hlt.
    set (l := map _ (values g)) in Hocc.
    destruct (in_dec Z.eq_dec (Z.of_nat c) l) as [Hin | Hnot].
    + apply in_map_iff in Hin as (x & Hx & Hxin).
      destruct (Hall x Hxin) as (a & Ha & ->).
      rewrite bucket_of_intensity in Hx by exact Ha.
      apply Nat2Z.inj in Hx. now subst a.
    + apply (count_occ_not_In Z.eq_dec) in Hnot.
      rewrite Hnot in Hocc. now contradiction Hocc.
  - rewrite nth_overflow in Hocc; [now contradiction Hocc|].
    destruct (histogram_of_shape g) as (_ & ->). exact Hge.
Qed.

Lemma histogram_intensity_present (g : Tensor) (c : nat) :
  c <= 255 -> In (ofNat c) (values g) ->
  ngtb (nth c (values (histogram_of g)) (Fin 0)) (Fin 0) = true.
Proof.
  intros Hc Hin. rewrite histogram_of_nth by lia.
  apply ofNat_positive. apply count_occ_In.
  rewrite <- (bucket_of_intensity c Hc).
  now apply (in_map (fun x => toInt32 (ofZ (toInt32 (nround x))))).
Qed.

(** X6.  On a valid 1-channel image of integer intensities of [0 .. 255] that
    holds at least two different intensities, the ['otsu'] method takes as
    threshold an intensity [k] of the image that is not its brightest, and
    the result holds both values: the pixels of intensity [k] are on one side
    and some brighter pixel is on the other. *)
Theorem otsu_nontrivial (tri : Tensor -> Tensor) (image : Tensor)
  (h w a b : nat) (inverted : bool) (v : num) :
  shape image = [h; w; 1] ->
  dtype image = int32 \/ dtype image = float32 ->
  length (values image) = h * w ->
  (forall x, In x (values image) -> exists c, c <= 255 /\ x = ofNat c) ->
  a < b -> In (ofNat a) (values image) -> In (ofNat b) (values image) ->
  exists k j out,
    values (threshold_of tri image "otsu" v) = [ofNat k]
    /\ k < j
    /\ In (ofNat k) (values image) /\ In (ofNat j) (values image)
    /\ threshold_ tri image "otsu" inverted v = Ok out
    /\ In (ofZ 0) (values out) /\ In (ofZ 255) (values out).
Proof.
  intros Hs Hd Hlen Hall Hab Hina Hinb.
  assert (Hvalid : valid_image image).
  { split; [unfold rank; now rewrite Hs|]. split; [|exact Hd].
    right. unfold shape_is. now rewrite Hs. }
  assert (Hgray : grayscale_of image = image).
  { apply grayscale_one_channel. unfold shape_is. now rewrite Hs. }
  assert (Hpix : 0 < h * w).
  { rewrite <- Hlen. destruct (values image); [contradiction | simpl; lia]. }
  destruct (Hall _ Hina) as (a' & Ha & Ea). apply ofNat_inj in Ea. subst a'.
  destruct (Hall _ Hinb) as (b' & Hb & Eb). apply ofNat_inj in Eb. subst b'.
  destruct (histogram_of_shape image) as (Hhs & Hhl).
  assert (HT : (0 < inject_Z (Z.of_nat (h * w)))%Q)
    by (change 0%Q with (inject_Z 0); rewrite <- Zlt_Qlt; lia).
  destruct (otsu_index_exists (histogram_of image)
              (inject_Z (Z.of_nat (h * w))) 256 a b Hhs Hhl
              (histogram_of_counts image) HT Hab
              (histogram_intensity_present image a Ha Hina)
              (histogram_intensity_present image b Hb Hinb))
    as (k & Hk).
  pose proof (otsu_index_not_empty (histogram_of image) _ 256 k Hhs Hhl Hk)
    as Hocc.
  destruct (otsu_index_not_last (histogram_of image) _ 256 k Hhs Hhl Hk)
    as (j & Hj & Hjocc).
  apply (histogram_bucket_occupied image k Hall) in Hocc.
  apply (histogram_bucket_occupied image j Hall) in Hjocc.
  assert (Ht : values (threshold_of tri image "otsu" v) = [ofNat k]).
  { rewrite threshold_of_otsu, Hgray.
    unfold totalPixelsInImage. rewrite Hs. cbn [nth_error]. exact Hk. }
  destruct (accepted_call tri image "otsu" inverted v Hvalid
              (or_intror eq_refl))
    as (h' & w' & c' & t & _ & _ & Ht' & Hcall).
  rewrite Ht in Ht'. injection Ht' as <-.
  exists k, j. eexists. split; [exact Ht|]. split; [lia|].
  split; [exact Hocc|]. split; [exact Hjocc|]. split; [exact Hcall|].
  cbn [values]. rewrite Hgray.
  destruct (ofNat_lt k j ltac:(lia)) as (G & L).
  assert (Hk_pix : In (pixel_of (passes inverted (ofNat k) (ofNat k)))
                     (map (fun x => pixel_of (passes inverted (ofNat k) x))
                        (values image)))
    by (apply (in_map (fun x => pixel_of (passes inverted (ofNat k) x)));
        exact Hocc).
  assert (Hj_pix : In (pixel_of (passes inverted (ofNat k) (ofNat j)))
                     (map (fun x => pixel_of (passes inverted (ofNat k) x))
                        (values image)))
    by (apply (in_map (fun x => pixel_of (passes inverted (ofNat k) x)));
        exact Hjocc).
  unfold passes in Hk_pix, Hj_pix. destruct inverted.
  - rewrite nleb_refl in Hk_pix by discriminate. rewrite L in Hj_pix.
    split; assumption.
  - rewrite ngtb_irrefl in Hk_pix. rewrite G in Hj_pix.
    split; assumption.
Qed.

Lemma otsu_nontrivial_witness :
  exists k j out,
    values (threshold_of no_triangle image_2x2_nat "otsu" (Fin (1 # 2)))
    = [ofNat k]
    /\ k < j
    /\ In (ofNat k) (values image_2x2_nat)
    /\ In (ofNat j) (values image_2x2_nat)
    /\ threshold_ no_triangle image_2x2_nat "otsu" false (Fin (1 # 2))
       = Ok out
    /\ In (ofZ 0) (values out) /\ In (ofZ 255) (values out).
Proof.
  apply (otsu_nontrivial no_triangle image_2x2_nat 2 2 5 250 false
           (Fin (1 # 2))); try reflexivity; try lia.
  - left; reflexivity.
  - simpl. intros x Hx.
    decompose [or] Hx; subst; try contradiction;
      eexists; (split; [|reflexivity]); lia.
  - simpl. auto.
  - simpl. auto.
Defined.

(** ** The size of the result *)



(** * The mock model runner *)

Section MockRunnerProperties.

Import MockRunner.

Lemma replace_nth_app {A : Type} (done : list A) (x y : A) (todo : list A) :
  replace_nth (length done) x (done ++ y :: todo) = done ++ x :: todo.
Proof.
  induction done as [|d done IH]; simpl; [reflexivity | now rewrite IH].
Qed.

Lemma nth_error_middle {A : Type} (done : list A) (y : A) (todo : list A) :
  nth_error (done ++ y :: todo) (length done) = Some y.
Proof.
  rewrite nth_error_app2 by lia. now rewrite Nat.sub_diag.
Qed.

Lemma typedArraySet_same_length (target source : list Z) :
  length source = length target ->
  typedArraySet target source = Ok (map wrap32 source).
Proof.
  intros H. unfold typedArraySet. rewrite <- H, Nat.ltb_irrefl.
  rewrite H, skipn_all. now rewrite app_nil_r.
Qed.

Lemma infer_loop_doubles (results : list string) (single : bool)
  (todo_i todo_o : list TFWebModelRunnerTensorInfo) :
  Forall2 (fun i o => length (data i) = length (data o)) todo_i todo_o ->
  forall done_i done_o,
    length done_i = length done_o ->
    infer_loop (seq (length done_i) (length todo_i))
      (mkRunner results (done_i ++ todo_i) (done_o ++ todo_o) single)
    = Ok (mkRunner results (done_i ++ todo_i)
            (done_o ++ zipWith doubled todo_i todo_o) single).
Proof.
  induction 1 as [|x o todo_i todo_o Hlen _ IH]; intros done_i done_o Hdone.
  - reflexivity.
  - cbn [length seq infer_loop zipWith]. unfold infer_iteration.
    cbn [inputTensors outputTensors mockInferResults singleOutput].
    rewrite nth_error_middle, Hdone, nth_error_middle.
    rewrite typedArraySet_same_length by (now rewrite length_map).
    cbn [bind]. rewrite replace_nth_app, map_map.
    fold (doubled x o).
    specialize (IH (done_i ++ [x]) (done_o ++ [doubled x o])).
    rewrite !length_app, <- !app_assoc in IH. cbn [length app] in IH.
    rewrite Nat.add_1_r in IH. rewrite <- Hdone. apply IH. lia.
Qed.

Lemma infer_aligned (r : MockModelRunner) :
  aligned r ->
  infer r
  = Ok (mkRunner (mockInferResults r) (inputTensors r)
          (zipWith doubled (inputTensors r) (outputTensors r))
          (singleOutput r),
        true).
Proof.
  intros H. unfold infer. destruct r as [results ins outs single].
  cbn [inputTensors outputTensors mockInferResults singleOutput] in *.
  pose proof (infer_loop_doubles results single ins outs H [] [] eq_refl)
    as Hloop.
  cbn [length app] in Hloop. now rewrite Hloop.
Qed.

Lemma nth_error_zipWith {A B C : Type} (f : A -> B -> C) xs ys k x y :
  nth_error xs k = Some x -> nth_error ys k = Some y ->
  nth_error (zipWith f xs ys) k = Some (f x y).
Proof.
  revert ys k. induction xs as [|a xs IH]; intros [|b ys] [|k] Hx Hy;
    simpl in *; try discriminate.
  - congruence.
  - now apply IH.
Qed.


Lemma constructor_aligned (modelPath : string) (numThreads : nat) :
  aligned (constructor modelPath numThreads).
Proof. repeat constructor. Qed.


Lemma nth_error_zipWith_inv {A B C : Type} (f : A -> B -> C) xs ys k z :
  nth_error (zipWith f xs ys) k = Some z ->
  exists x y, nth_error xs k = Some x /\ nth_error ys k = Some y
              /\ z = f x y.
Proof.
  revert ys k. induction xs as [|x xs IH]; intros [|y ys] [|k] H;
    simpl in H; try discriminate.
  - injection H as <-. now exists x, y.
  - simpl. now apply IH.
Qed.

Lemma wrap32_cases (v : Z) :
  ((- 2 ^ 30 <= v < 2 ^ 30 -> wrap32 (v * 2) = v * 2)
   /\ (2 ^ 30 <= v < 2 ^ 31 -> wrap32 (v * 2) = v * 2 - 2 ^ 32)
   /\ (- 2 ^ 31 <= v < - 2 ^ 30 -> wrap32 (v * 2) = v * 2 + 2 ^ 32))%Z.
Proof.
  unfold wrap32.
  change (2 ^ 30)%Z with 1073741824%Z. change (2 ^ 31)%Z with 2147483648%Z.
  change (2 ^ 32)%Z with 4294967296%Z.
  repeat split; intros H.
  - rewrite Z.mod_small; lia.
  - replace (v * 2 + 2147483648)%Z
      with (v * 2 + 2147483648 - 4294967296 + 1 * 4294967296)%Z by lia.
    rewrite Z.mod_add by lia. rewrite Z.mod_small; lia.
  - replace (v * 2 + 2147483648)%Z
      with (v * 2 + 2147483648 + 4294967296 + (-1) * 4294967296)%Z by lia.
    rewrite Z.mod_add by lia. rewrite Z.mod_small; lia.
Qed.



Lemma doubled_aligned (ins outs : list TFWebModelRunnerTensorInfo) :
  Forall2 (fun i o => length (data i) = length (data o)) ins outs ->
  Forall2 (fun i o => length (data i) = length (data o)) ins
    (zipWith doubled ins outs)
  /\ zipWith doubled ins (zipWith doubled ins outs) = zipWith doubled ins outs.
Proof.
  induction 1 as [|i o ins outs Hlen _ (IH1 & IH2)]; [now split|].
  cbn [zipWith]. split.
  - constructor; [|exact IH1].
    unfold doubled, with_data. cbn [data]. now rewrite length_map.
  - now rewrite IH2.
Qed.



End MockRunnerProperties.

(** ** The model at concrete inputs *)

Example toInt32_255 : toInt32 (ofZ 255) = 255%Z.
Proof. reflexivity. Qed.

Example nround_half :
  nround (Fin (5 # 2)) = ofZ 2 /\ nround (Fin (7 # 2)) = ofZ 4.
Proof. split; reflexivity. Qed.

Example ndiv_zero_zero : ndiv (ofZ 0) (ofZ 0) = NaN.
Proof. reflexivity. Qed.

Example otsu_2x2 :
  threshold_ no_triangle image_2x2 "otsu" false (Fin (1 # 2))
  = Ok {| shape := [2; 2; 1]; dtype := int32;
          values := [ofZ 0; ofZ 255; ofZ 255; ofZ 0] |}.
Proof. vm_compute. reflexivity. Qed.

Example otsu_2x2_threshold :
  values (otsu (histogram_of image_2x2) (totalPixelsInImage image_2x2))
  = [ofZ 10].
Proof. vm_compute. reflexivity. Qed.
